(** * loadbalance: a discrete-time simulation of a load-balanced server farm

    Shallow embedding of [main.go] (the four-policy simulator with the
    load-dependent service time) and verification of its timing, admission
    and accounting properties.  The sources keep an earlier revision of
    the same program (random dispatch only, no load surcharge); where it
    differs in what is verified here, [HandleRequest], it is embedded too.

    Conventions of the embedding.
    - Go's [int64], and [int] on a 64-bit target, are [Z] values kept in
      the signed 64-bit range by [wrap64]; every [+], [-], [*] of the source
      is written with its wrap-around.  [/] and [%] are Go's truncated
      quotient and remainder, [Z.quot] and [Z.rem].
    - A slice is a [list]; [servers[i]] with an [int] index goes through
      [index], which panics out of range as Go does.  Indices produced by a
      [range] loop are [nat].
    - The package-level variables ([tm], [servers], [rrIdx], the five
      [float64] counters) are the fields of [Sim]; methods that read the
      global [tm] take it as an argument.
    - A Go panic is the [Panic] result.
    - The random sources (the Poisson arrival count, the exponential key,
      [rand.Int31n]) are inputs of a tick: a list of [Draw]s. *)

From Stdlib Require Import ZArith Lia Bool List String.
From stdpp Require Import base list.

Open Scope Z_scope.

(** ** Go integers *)

Module Go.

Definition wrap64 (z : Z) : Z := (z + 2 ^ 63) mod 2 ^ 64 - 2 ^ 63.

Definition add64 (a b : Z) : Z := wrap64 (a + b).
Definition sub64 (a b : Z) : Z := wrap64 (a - b).
Definition mul64 (a b : Z) : Z := wrap64 (a * b).

(** Run-time panics the program can raise. *)
Inductive panic : Type :=
| AllSlotsUsed        (* panic(fmt.Errorf("All slots used")) *)
| IndexOutOfRange.    (* slice index out of range *)

Inductive result (A : Type) : Type :=
| Ok (a : A)
| Panic (p : panic).
Arguments Ok {A} a.
Arguments Panic {A} p.

Definition bind {A B : Type} (m : result A) (k : A -> result B) : result B :=
  match m with
  | Ok a => k a
  | Panic p => Panic p
  end.

(** [l[i]] for an [int] index. *)
Definition index {A : Type} (l : list A) (i : Z) : result A :=
  if i <? 0 then Panic IndexOutOfRange
  else match l !! Z.to_nat i with
       | Some a => Ok a
       | None => Panic IndexOutOfRange
       end.

End Go.
Export Go.

Notation "'let*' x ':=' m 'in' k" := (bind m (fun x => k))
  (at level 10, x name, m at level 100, k at level 200).
Notation "'let*' ' p ':=' m 'in' k" := (bind m (fun x => match x with p => k end))
  (at level 10, p pattern, m at level 100, k at level 200).

(** ** Data model *)

Record Request : Type := mkRequest {
  Item : Z;
  Sent : Z;
  Accepted : Z;
  Completed : Z;
  Cached : bool
}.

(** [Slot] embeds a [Request]; [sl.Completed] in the source is
    [Completed (Req sl)] here. *)
Record Slot : Type := mkSlot {
  Full : bool;
  Req : Request
}.

(** The imported package [github.com/golang/groupcache/lru] is a dependency
    of the program, not part of its sources.  [lru_Cache] follows that
    package's [Cache]: a doubly linked list of entries, most recently used
    at the front, with a map from keys to list elements.  Only the order of
    the keys matters here (the stored value is always [true], and the map
    holds exactly the keys of the list), so the model is the list of keys,
    front first, and [MaxEntries].
    - [New(maxEntries)]: an empty cache.
    - [Get(key)]: on a hit, [MoveToFront] of the element and [ok = true];
      on a miss, no change and [ok = false].
    - [Add(key, value)]: on a hit, [MoveToFront]; otherwise [PushFront], and
      then [RemoveOldest] (the back of the list) when [MaxEntries != 0] and
      the length exceeds [MaxEntries]. *)
Record lru_Cache : Type := mkCache {
  MaxEntries : Z;
  ll : list Z
}.

Record Server : Type := mkServer {
  Queue : list Request;
  Slots : list Slot;
  SlotsUsed : Z;
  Cache : lru_Cache
}.

Definition numServers : Z := 100.
Definition numSlots : Z := 8.
Definition itemParameter : Z := 10000.
Definition cachedHandleTime : Z := 10.
Definition uncachedHandleTime : Z := 100.
Definition requestLimit : Z := 4000000.
(** [1.8 * itemParameter / numServers], an exact untyped constant. *)
Definition cacheSize : Z := 180.
Definition maxQueue : Z := 50.

(** ** The LRU cache *)

Definition lru_New (maxEntries : Z) : lru_Cache :=
  {| MaxEntries := maxEntries; ll := [] |}.

(** [_, hit := c.cache[key]] *)
Definition lru_hit (key : Z) (c : lru_Cache) : bool :=
  existsb (Z.eqb key) (ll c).

Definition MoveToFront (key : Z) (l : list Z) : list Z :=
  key :: List.filter (fun k => negb (k =? key)) l.

Definition lru_Get (key : Z) (c : lru_Cache) : lru_Cache * bool :=
  if lru_hit key c
  then ({| MaxEntries := MaxEntries c; ll := MoveToFront key (ll c) |}, true)
  else (c, false).

Definition RemoveOldest (c : lru_Cache) : lru_Cache :=
  {| MaxEntries := MaxEntries c; ll := removelast (ll c) |}.

Definition lru_Add (key : Z) (c : lru_Cache) : lru_Cache :=
  if lru_hit key c
  then {| MaxEntries := MaxEntries c; ll := MoveToFront key (ll c) |}
  else
    let c1 := {| MaxEntries := MaxEntries c; ll := key :: ll c |} in
    if negb (MaxEntries c1 =? 0) && (MaxEntries c1 <? Z.of_nat (length (ll c1)))
    then RemoveOldest c1
    else c1.

(** ** Server *)

Definition AddRequest (r : Request) (s : Server) : Server :=
  if Z.of_nat (length (Queue s)) <? maxQueue
  then {| Queue := Queue s ++ [r]; Slots := Slots s;
          SlotsUsed := SlotsUsed s; Cache := Cache s |}
  else s.

Fixpoint find_free (i : nat) (slots : list Slot) : result nat :=
  match slots with
  | [] => Panic AllSlotsUsed
  | sl :: rest => if negb (Full sl) then Ok i else find_free (S i) rest
  end.

Definition FindSlot (s : Server) : result nat := find_free 0 (Slots s).

(** The service time of an admission: the base time, plus the surcharge
    when [slotsUsed > numSlots/2]; [slotsUsed] is the value of [s.SlotsUsed]
    the [if] of the source reads. *)
Definition handleTime (cached : bool) (slotsUsed : Z) : Z :=
  let base := if cached then cachedHandleTime else uncachedHandleTime in
  if numSlots ÷ 2 <? slotsUsed
  then add64 base (mul64 (base ÷ numSlots) (sub64 slotsUsed (numSlots ÷ 2)))
  else base.

Definition HandleRequest (tm : Z) (r : Request) (s : Server) : result Server :=
  let* i := FindSlot s in
  let '(cache, cached) := lru_Get (Item r) (Cache s) in
  let r' := {| Item := Item r; Sent := Sent r; Accepted := tm;
               Completed := add64 tm (handleTime cached (SlotsUsed s));
               Cached := if cached then true else Cached r |} in
  Ok {| Queue := Queue s;
        Slots := <[i := {| Full := true; Req := r' |}]> (Slots s);
        SlotsUsed := add64 (SlotsUsed s) 1;
        Cache := cache |}.

(** [HandleRequest] as the earlier revision of the program kept with the
    sources has it: the same admission, without the load surcharge. *)
Definition HandleRequest_basic (tm : Z) (r : Request) (s : Server) : result Server :=
  let* i := FindSlot s in
  let '(cache, cached) := lru_Get (Item r) (Cache s) in
  let r' := {| Item := Item r; Sent := Sent r; Accepted := tm;
               Completed := if cached then add64 tm cachedHandleTime
                            else add64 tm uncachedHandleTime;
               Cached := if cached then true else Cached r |} in
  Ok {| Queue := Queue s;
        Slots := <[i := {| Full := true; Req := r' |}]> (Slots s);
        SlotsUsed := add64 (SlotsUsed s) 1;
        Cache := cache |}.

Definition CompleteRequest (i : nat) (s : Server) : result (Server * Request) :=
  match Slots s !! i with
  | None => Panic IndexOutOfRange
  | Some sl =>
      Ok ({| Queue := Queue s;
             Slots := <[i := {| Full := false; Req := Req sl |}]> (Slots s);
             SlotsUsed := sub64 (SlotsUsed s) 1;
             Cache := lru_Add (Item (Req sl)) (Cache s) |},
          Req sl)
  end.

Definition Outstanding (s : Server) : Z :=
  add64 (Z.of_nat (length (Queue s))) (SlotsUsed s).

(** The admission loop of [Server.Tick]; [q] is [s.Queue], and each
    iteration removes its head. *)
Fixpoint admitLoop (tm : Z) (q : list Request) (s : Server) : result Server :=
  match q with
  | [] => Ok s
  | r :: q' =>
      if SlotsUsed s <? numSlots then
        let* s1 := HandleRequest tm r s in
        admitLoop tm q' {| Queue := q'; Slots := Slots s1;
                       SlotsUsed := SlotsUsed s1; Cache := Cache s1 |}
      else Ok s
  end.

(** The release scan of [Server.Tick] over the slot indices [idx]. *)
Fixpoint release (tm : Z) (idx : list nat) (s : Server) (ret : list Request)
  : result (Server * list Request) :=
  match idx with
  | [] => Ok (s, ret)
  | i :: rest =>
      match Slots s !! i with
      | None => Panic IndexOutOfRange
      | Some sl =>
          if Full sl && (Completed (Req sl) <=? tm) then
            let* '(s1, r) := CompleteRequest i s in
            release tm rest s1 (ret ++ [r])
          else release tm rest s ret
      end
  end.

Definition Server_Tick (tm : Z) (s : Server) : result (Server * list Request) :=
  let* s1 := admitLoop tm (Queue s) s in
  release tm (seq 0 (length (Slots s1))) s1 [].

(** ** Dispatch policies *)

Inductive Policy : Type := Random | RoundRobin | ModuloHash | ModChoose2.

(** The table [choosePolicy], keyed by the policy's name. *)
Definition choosePolicy (name : string) : option Policy :=
  if String.eqb name "random" then Some Random
  else if String.eqb name "roundrobin" then Some RoundRobin
  else if String.eqb name "modulohash" then Some ModuloHash
  else if String.eqb name "modchoose2" then Some ModChoose2
  else None.

Definition modulohash (r : Request) : Z := Z.rem (Item r) numServers.

Definition modchoose2 (servers : list Server) (r : Request) : result Z :=
  let first := Z.rem (Item r) numServers in
  let second := Z.rem (add64 (mul64 first (Item r)) 1) numServers in
  let* s2 := index servers second in
  let* s1 := index servers first in
  if add64 (Outstanding s2) 16 <? Outstanding s1 then Ok second else Ok first.

(** ** Engine *)

(** The five [float64] counters.  Each holds an integer value and only
    ever has an integer added to it; [float64] represents every integer of
    magnitude up to [2^53] exactly, so below that bound the additions are
    exact and the counters are modelled in [Z]. *)
Record Stats : Type := mkStats {
  totalRequests : Z;
  acceptedRequests : Z;
  totalCached : Z;
  totalQueued : Z;
  totalTime : Z
}.

(** The package-level state.  The last two fields are ghost history, not
    variables of the program: [droppedCount] counts the arrivals
    [AddRequest] discarded at a full queue, and [released] logs every
    request handed to [RecordStats] with the tick of its release. *)
Record Sim : Type := mkSim {
  tm : Z;
  servers : list Server;
  rrIdx : Z;
  stats : Stats;
  droppedCount : Z;
  released : list (Z * Request)
}.

(** One random arrival: [key] is [int64(rand.ExpFloat64() * itemParameter)],
    [pick] is what [rand.Int31n(numServers)] returns should the policy
    call it. *)
Record Draw : Type := mkDraw { key : Z; pick : Z }.

Definition zeroSlot : Slot :=
  {| Full := false;
     Req := {| Item := 0; Sent := 0; Accepted := 0; Completed := 0; Cached := false |} |}.

Definition newServer : Server :=
  {| Queue := []; Slots := replicate (Z.to_nat numSlots) zeroSlot;
     SlotsUsed := 0; Cache := lru_New cacheSize |}.

Definition zeroStats : Stats :=
  {| totalRequests := 0; acceptedRequests := 0; totalCached := 0;
     totalQueued := 0; totalTime := 0 |}.

(** The state [init] leaves. *)
Definition init : Sim :=
  {| tm := 0; servers := replicate (Z.to_nat numServers) newServer; rrIdx := 0;
     stats := zeroStats; droppedCount := 0; released := [] |}.

Definition GenerateRequests (tm : Z) (draws : list Draw) : list Request :=
  map (fun d => {| Item := key d; Sent := tm; Accepted := 0; Completed := 0;
                   Cached := false |}) draws.

(** [ChooseServer(r)]: the chosen index and the new [rrIdx]. *)
Definition ChooseServer (pol : Policy) (sim : Sim) (r : Request) (pick : Z)
  : result (Z * Z) :=
  match pol with
  | Random => Ok (pick, rrIdx sim)
  | RoundRobin => Ok (rrIdx sim, Z.rem (add64 (rrIdx sim) 1) numServers)
  | ModuloHash => Ok (modulohash r, rrIdx sim)
  | ModChoose2 => let* i := modchoose2 (servers sim) r in Ok (i, rrIdx sim)
  end.

Definition RecordStats (st : Stats) (r : Request) : Stats :=
  {| totalRequests := totalRequests st;
     acceptedRequests := acceptedRequests st + 1;
     totalCached := if Cached r then totalCached st + 1 else totalCached st;
     totalQueued := totalQueued st + sub64 (Accepted r) (Sent r);
     totalTime := totalTime st + sub64 (Completed r) (Sent r) |}.

Definition queue_full (s : Server) : bool :=
  negb (Z.of_nat (length (Queue s)) <? maxQueue).

(** The dispatch loop of [Tick] over the generated requests, each paired
    with its [pick]. *)
Fixpoint dispatch (pol : Policy) (reqs : list (Request * Z)) (sim : Sim) : result Sim :=
  match reqs with
  | [] => Ok sim
  | (request, pick) :: rest =>
      let st := stats sim in
      let st1 := {| totalRequests := totalRequests st + 1;
                    acceptedRequests := acceptedRequests st;
                    totalCached := totalCached st;
                    totalQueued := totalQueued st;
                    totalTime := totalTime st |} in
      let* '(i, rr) := ChooseServer pol sim request pick in
      let* s := index (servers sim) i in
      dispatch pol rest
        {| tm := tm sim;
           servers := <[Z.to_nat i := AddRequest request s]> (servers sim);
           rrIdx := rr;
           stats := st1;
           droppedCount := if queue_full s then droppedCount sim + 1
                           else droppedCount sim;
           released := released sim |}
  end.

(** The server loop of [Tick]: every server ticks in order and its
    completed requests are recorded at once. *)
Fixpoint tick_servers (tm : Z) (todo : list Server) (st : Stats)
  : result (list Server * Stats * list Request) :=
  match todo with
  | [] => Ok ([], st, [])
  | server :: rest =>
      let* '(server1, done) := Server_Tick tm server in
      let* '(rest1, st1, log) := tick_servers tm rest (fold_left RecordStats done st) in
      Ok (server1 :: rest1, st1, done ++ log)
  end.

Definition Tick (pol : Policy) (draws : list Draw) (sim : Sim) : result Sim :=
  let tm1 := add64 (tm sim) 1 in
  let sim1 := {| tm := tm1; servers := servers sim; rrIdx := rrIdx sim;
                 stats := stats sim; droppedCount := droppedCount sim;
                 released := released sim |} in
  let* sim2 :=
    (if tm1 <=? requestLimit
     then dispatch pol (combine (GenerateRequests tm1 draws) (map pick draws)) sim1
     else Ok sim1) in
  let* '(servers1, st1, done) := tick_servers tm1 (servers sim2) (stats sim2) in
  Ok {| tm := tm1; servers := servers1; rrIdx := rrIdx sim2; stats := st1;
        droppedCount := droppedCount sim2;
        released := released sim2 ++ map (pair tm1) done |}.

(** ** The main loop *)

(** What one progress line reports (the printed ratios are [float64]
    quotients of these). *)
Record Snapshot : Type := mkSnapshot {
  snap_tm : Z;
  snap_stats : Stats;
  snap_tmx : Z
}.

(** The variables of [main] around the simulation state.  [resets] is
    ghost: the number of times the mid-run reset ran. *)
Record Main : Type := mkMain {
  sim : Sim;
  prevCompletion : Z;
  tmx : Z;
  output : list Snapshot;
  resets : Z
}.

Definition main_init : Main :=
  {| sim := init; prevCompletion := -1; tmx := 0; output := []; resets := 0 |}.

Definition total_Outstanding (ss : list Server) : Z :=
  fold_left (fun total s => add64 total (Outstanding s)) ss 0.

(** One iteration of the [for] loop of [main]; the boolean is [finish]. *)
Definition main_body (pol : Policy) (draws : list Draw) (m : Main) : result (Main * bool) :=
  let* sim1 := Tick pol draws (sim m) in
  let tmx1 := tmx m + 1 in
  let total := total_Outstanding (servers sim1) in
  let reset := tm sim1 =? requestLimit ÷ 2 in
  let st2 := if reset then zeroStats else stats sim1 in
  let tmx2 := if reset then 0 else tmx1 in
  let finish := (total =? 0) && (requestLimit <=? tm sim1) in
  let completion := mul64 10 (tm sim1) ÷ requestLimit in
  let print := (1000 <=? acceptedRequests st2) && negb (completion =? prevCompletion m)
               || finish in
  Ok ({| sim := {| tm := tm sim1; servers := servers sim1; rrIdx := rrIdx sim1;
                   stats := st2; droppedCount := droppedCount sim1;
                   released := released sim1 |};
         prevCompletion := if print then completion else prevCompletion m;
         tmx := tmx2;
         output := if print
                   then output m ++ [{| snap_tm := tm sim1; snap_stats := st2;
                                        snap_tmx := tmx2 |}]
                   else output m;
         resets := if reset then resets m + 1 else resets m |},
      finish).

(** The loop itself, over the random draws of the successive ticks; it
    stops at [finish], or when the draws given are used up (a prefix of a
    run).  The boolean tells whether [finish] was reached. *)
Fixpoint main_loop (pol : Policy) (inputs : list (list Draw)) (m : Main)
  : result (Main * bool) :=
  match inputs with
  | [] => Ok (m, false)
  | draws :: rest =>
      let* '(m1, finish) := main_body pol draws m in
      if finish then Ok (m1, true) else main_loop pol rest m1
  end.

(** * Specification *)

(** ** Invariants and measures *)

Definition minInt64 : Z := -9223372036854775808.
Definition maxInt64 : Z := 9223372036854775807.

Definition b2z (b : bool) : Z := if b then 1 else 0.

(** The number of slots whose [Full] flag is set. *)
Fixpoint count_full (slots : list Slot) : Z :=
  match slots with
  | [] => 0
  | sl :: rest => b2z (Full sl) + count_full rest
  end.

(** Every server has [numSlots] slots, [SlotsUsed] counts the full ones,
    and the queue holds at most [maxQueue] requests. *)
Record wf_server (s : Server) : Prop := mk_wf {
  wf_len : Z.of_nat (length (Slots s)) = numSlots;
  wf_used : SlotsUsed s = count_full (Slots s);
  wf_queue : Z.of_nat (length (Queue s)) <= maxQueue
}.

Definition baseTime (cached : bool) : Z :=
  if cached then cachedHandleTime else uncachedHandleTime.

(** The surcharge on base time [b] when [u] slots are in use. *)
Definition surcharge (b u : Z) : Z :=
  if numSlots ÷ 2 <? u then (b ÷ numSlots) * (u - numSlots ÷ 2) else 0.

Definition inflight (s : Server) : Z := Z.of_nat (length (Queue s)) + SlotsUsed s.

(** The stamps of an admitted request, seen at tick [t]. *)
Definition stamped (t : Z) (r : Request) : Prop :=
  Sent r <= Accepted r /\ Accepted r <= t /\
  Accepted r + cachedHandleTime <= Completed r <= Accepted r + 148.

Record timed (t : Z) (s : Server) : Prop := mk_timed {
  timed_queue : Forall (fun r => Sent r <= t) (Queue s);
  timed_slots : Forall (fun sl => Full sl = true -> stamped t (Req sl)) (Slots s)
}.

(** Ticks for which no time stamp of the run can overflow. *)
Definition tick_ok (t : Z) : Prop := 0 <= t <= 4611686018427387904.

Definition completed_by (t : Z) (r : Request) : Prop :=
  stamped t r /\ Completed r <= t.

(** Requests held by the servers: queued or in a slot. *)
Fixpoint total_inflight (ss : list Server) : Z :=
  match ss with
  | [] => 0
  | s :: rest => inflight s + total_inflight rest
  end.

(** Generated requests not accounted for as completed, dropped or held. *)
Definition balance (sim : Sim) : Z :=
  totalRequests (stats sim) - acceptedRequests (stats sim) - droppedCount sim
  - total_inflight (servers sim).

(** A full slot weighs one more than the ticks left until its completion,
    a queued request more than any slot it can come to fill. *)
Definition slot_work (t : Z) (sl : Slot) : Z :=
  if Full sl then 1 + Z.max 0 (Completed (Req sl) - t) else 0.

Fixpoint slots_work (t : Z) (slots : list Slot) : Z :=
  match slots with
  | [] => 0
  | sl :: rest => slot_work t sl + slots_work t rest
  end.

Definition work (t : Z) (s : Server) : Z :=
  150 * Z.of_nat (length (Queue s)) + slots_work t (Slots s).

(** After the release scan of tick [t] a full slot completes later. *)
Definition pending (t : Z) (sl : Slot) : Prop :=
  Full sl = true -> t < Completed (Req sl).

Definition settled (t : Z) (s : Server) : Prop := Forall (pending t) (Slots s).

(** The tick by which every run has finished: the last tick with arrivals
    plus the work a server can hold. *)
Definition lastTick : Z := requestLimit + 8692.

Definition released_ok (e : Z * Request) : Prop := completed_by (fst e) (snd e).

(** What holds of the simulation between two iterations of [main]'s loop. *)
Record main_inv (m : Main) : Prop := mk_main_inv {
  mi_tm : 0 <= tm (sim m);
  mi_wf : Forall wf_server (servers (sim m));
  mi_timed : Forall (timed (tm (sim m))) (servers (sim m));
  mi_released : Forall released_ok (released (sim m));
  mi_settled : Forall (settled (tm (sim m))) (servers (sim m));
  mi_work : Forall (fun s => work (tm (sim m)) s <= Z.max 0 (lastTick - tm (sim m)))
                   (servers (sim m));
  mi_resets : resets m = if tm (sim m) <? requestLimit ÷ 2 then 0 else 1;
  mi_balance : tm (sim m) < requestLimit ÷ 2 -> balance (sim m) = 0
}.

(** ** The data of the examples *)

Definition request5 : Request :=
  {| Item := 5; Sent := 1; Accepted := 0; Completed := 0; Cached := false |}.

Definition full_queue_server : Server :=
  {| Queue := replicate 50 request5; Slots := Slots newServer;
     SlotsUsed := 0; Cache := lru_New cacheSize |}.

(** The completion tick as the specification words it: [u] is the number of slots
    in use after this admission. *)
Definition spec_completion (accepted b u : Z) : Z :=
  if numSlots ÷ 2 <? u
  then accepted + b + (b ÷ numSlots) * (u - numSlots ÷ 2)
  else accepted + b.

Definition busySlot : Slot :=
  {| Full := true;
     Req := {| Item := 1; Sent := 1; Accepted := 1; Completed := 101; Cached := false |} |}.

(** A server with [n] of its slots full and the keys [keys] cached. *)
Definition busy_server (n : nat) (keys : list Z) (queue : list Request) : Server :=
  {| Queue := queue;
     Slots := replicate n busySlot ++ replicate (Z.to_nat numSlots - n) zeroSlot;
     SlotsUsed := Z.of_nat n;
     Cache := {| MaxEntries := cacheSize; ll := keys |} |}.

Definition request9 : Request :=
  {| Item := 9; Sent := 1; Accepted := 0; Completed := 0; Cached := false |}.

Definition request2 : Request :=
  {| Item := 2; Sent := 1; Accepted := 0; Completed := 0; Cached := false |}.

Definition request0 : Request :=
  {| Item := 0; Sent := 1; Accepted := 0; Completed := 0; Cached := false |}.

(** Server 0 holds sixteen queued requests, the others none. *)
Definition margin_servers : list Server :=
  busy_server 0 [] (replicate 16 request5) :: replicate 99 newServer.

Definition arrivals (n : nat) (k : Z) : list Draw := replicate n {| key := k; pick := 0 |}.
Definition idle (n : nat) : list (list Draw) := replicate n [].

Definition run_state (x : result (Main * bool)) : Main :=
  match x with
  | Ok (m, _) => m
  | Panic _ => main_init
  end.

(** One request for key 5 at tick 1, then a hundred ticks without arrivals. *)
Definition single_inputs : list (list Draw) := arrivals 1 5 :: idle 100.
Definition single_final : Main := run_state (main_loop ModuloHash single_inputs main_init).

(** Seventy requests for key 5 at tick 1, all routed to server 5, then a
    hundred and ten ticks without arrivals. *)
Definition burst_inputs : list (list Draw) := arrivals 70 5 :: idle 110.
Definition burst_final : Main := run_state (main_loop ModuloHash burst_inputs main_init).

(** A state at tick 1999999, one tick before the reset, in which server 0
    holds one admitted request and the counters and the requests held
    balance. *)
Definition before_reset : Main :=
  {| sim := {| tm := 1999999;
               servers := {| Queue := [];
                             Slots := {| Full := true;
                                         Req := {| Item := 0; Sent := 1999990;
                                                   Accepted := 1999990;
                                                   Completed := 2000090;
                                                   Cached := false |} |}
                                      :: replicate 7 zeroSlot;
                             SlotsUsed := 1;
                             Cache := lru_New cacheSize |}
                          :: replicate 99 newServer;
               rrIdx := 0;
               stats := {| totalRequests := 1; acceptedRequests := 0; totalCached := 0;
                           totalQueued := 0; totalTime := 0 |};
               droppedCount := 0;
               released := [] |};
     prevCompletion := -1; tmx := 1999999; output := []; resets := 0 |}.

Definition completed5 : Request :=
  {| Item := 5; Sent := 1; Accepted := 1; Completed := 101; Cached := false |}.

(** ** Further predicates *)

Definition all_full (slots : list Slot) : Prop := Forall (fun sl => Full sl = true) slots.

(** A slot the release scan of tick [t] frees. *)
Definition due (t : Z) (sl : Slot) : bool := Full sl && (Completed (Req sl) <=? t).

(** What the scan leaves of a slot. *)
Definition vacate (t : Z) (sl : Slot) : Slot :=
  if due t sl then {| Full := false; Req := Req sl |} else sl.

(** Slot [j] of [s] holds [r], admitted at tick [t] and not yet due. *)
Definition holds (t : Z) (r : Request) (s : Server) : Prop :=
  exists (j : nat) (sl : Slot),
    Slots s !! j = Some sl /\ Full sl = true /\ due t sl = false /\
    Item (Req sl) = Item r /\ Sent (Req sl) = Sent r /\ Accepted (Req sl) = t.

(** The requests a server holds: [PQ] of those queued, [PS] of those in
    full slots. *)
Definition held (PQ PS : Request -> Prop) (s : Server) : Prop :=
  Forall PQ (Queue s) /\ Forall (fun sl => Full sl = true -> PS (Req sl)) (Slots s).

(** The request [HandleRequest] stores, given the outcome of the lookup
    and the slots in use. *)
Definition admitted (t : Z) (cached : bool) (u : Z) (r : Request) : Request :=
  {| Item := Item r; Sent := Sent r; Accepted := t;
     Completed := add64 t (handleTime cached u);
     Cached := if cached then true else Cached r |}.

(** Sent while arrivals are generated. *)
Definition in_horizon (r : Request) : Prop := 1 <= Sent r <= requestLimit.

(** A request as [GenerateRequests] makes it. *)
Definition fresh (r : Request) : Prop := in_horizon r /\ Cached r = false.

(** A request as admission stamps it: a hit is served in 10 to 13 ticks, a
    miss in 100 to 136. *)
Definition served (r : Request) : Prop :=
  in_horizon r /\
  if Cached r then 10 <= Completed r - Accepted r <= 13
  else 100 <= Completed r - Accepted r <= 136.

Definition logged (now : Z) (e : Z * Request) : Prop :=
  served (snd e) /\ Completed (snd e) = fst e /\ 1 <= fst e <= now.

Record requests_inv (m : Main) : Prop := mk_requests_inv {
  ri_held : Forall (held fresh served) (servers (sim m));
  ri_released : Forall (logged (tm (sim m))) (released (sim m))
}.

(** The tick of the last reset of the counters: 0 until the mid-run reset. *)
Definition last_reset (t : Z) : Z :=
  if t <? requestLimit ÷ 2 then 0 else requestLimit ÷ 2.

(** The requests released since the counters were last reset, oldest
    first. *)
Definition recent (m : Main) : list Request :=
  map snd (List.filter (fun e => last_reset (tm (sim m)) <? fst e) (released (sim m))).

Fixpoint sum_of (f : Request -> Z) (rs : list Request) : Z :=
  match rs with
  | [] => 0
  | r :: rest => f r + sum_of f rest
  end.

(** The counters of [RecordStats] as sums over the requests [rs]. *)
Definition tallied (st : Stats) (rs : list Request) : Prop :=
  acceptedRequests st = Z.of_nat (length rs) /\
  totalCached st = sum_of (fun r => b2z (Cached r)) rs /\
  totalQueued st = sum_of (fun r => Accepted r - Sent r) rs /\
  totalTime st = sum_of (fun r => Completed r - Sent r) rs.

(** Stamps far from the ends of [int64]. *)
Definition small_stamps (r : Request) : Prop :=
  0 <= Sent r <= 4611686018427387904 /\
  0 <= Accepted r <= 4611686018427387904 /\
  0 <= Completed r <= 4611686018427387904.

(** A cache as a server of the program has it: no key twice, at most
    [cacheSize] keys. *)
Definition cache_ok (c : lru_Cache) : Prop :=
  List.NoDup (ll c) /\ Z.of_nat (length (ll c)) <= cacheSize /\ MaxEntries c = cacheSize.



(** There are [numServers] servers and [rrIdx] indexes one of them. *)
Definition routable (sim : Sim) : Prop :=
  Z.of_nat (length (servers sim)) = numServers /\ 0 <= rrIdx sim < numServers.

(** The state an iteration that sets [finish] leaves. *)
Definition finished (m : Main) : Prop :=
  requestLimit <= tm (sim m) /\
  Forall (fun s => Queue s = [] /\ SlotsUsed s = 0) (servers (sim m)) /\
  exists earlier : list Snapshot,
    output m = earlier ++ [{| snap_tm := tm (sim m); snap_stats := stats (sim m);
                              snap_tmx := tmx m |}].

(** An idle farm one tick before the horizon. *)
Definition late_idle : Main :=
  {| sim := {| tm := 3999999; servers := replicate 100 newServer; rrIdx := 0;
               stats := zeroStats; droppedCount := 0; released := [] |};
     prevCompletion := 9; tmx := 1999999; output := []; resets := 1 |}.

(** After [n] round-robin dispatches into empty queues: server [j] was
    offered every hundredth request from the [j]-th on. *)
Definition rr_spread (n : Z) (sim : Sim) : Prop :=
  Z.of_nat (length (servers sim)) = numServers /\
  rrIdx sim = n mod numServers /\
  forall (j : nat) (s : Server),
    servers sim !! j = Some s ->
    Z.of_nat (length (Queue s))
    = Z.min maxQueue ((n + (numServers - 1) - Z.of_nat j) / numServers).





(** * Verification *)

(** ** Arithmetic of the 64-bit wrap-around *)

Lemma wrap64_small (z : Z) : minInt64 <= z <= maxInt64 -> wrap64 z = z.
Proof.
  unfold minInt64, maxInt64, wrap64. intros H.
  change (2 ^ 63) with 9223372036854775808.
  change (2 ^ 64) with 18446744073709551616.
  rewrite Z.mod_small by lia. lia.
Qed.

Lemma wrap64_range (z : Z) : minInt64 <= wrap64 z <= maxInt64.
Proof.
  unfold minInt64, maxInt64, wrap64.
  change (2 ^ 63) with 9223372036854775808.
  change (2 ^ 64) with 18446744073709551616.
  pose proof (Z.mod_pos_bound (z + 9223372036854775808) 18446744073709551616 ltac:(lia)).
  lia.
Qed.

Lemma add64_small (a b : Z) :
  -9223372036854775808 <= a + b <= 9223372036854775807 -> add64 a b = a + b.
Proof. apply wrap64_small. Qed.

Lemma sub64_small (a b : Z) :
  -9223372036854775808 <= a - b <= 9223372036854775807 -> sub64 a b = a - b.
Proof. apply wrap64_small. Qed.

Lemma mul64_small (a b : Z) :
  -9223372036854775808 <= a * b <= 9223372036854775807 -> mul64 a b = a * b.
Proof. apply wrap64_small. Qed.

(** ** Slots: counting and searching *)

Lemma count_full_bounds (slots : list Slot) :
  0 <= count_full slots <= Z.of_nat (length slots).
Proof.
  induction slots as [|sl rest IH]; simpl; [lia|].
  destruct (Full sl); simpl; lia.
Qed.

Lemma count_full_insert (slots : list Slot) (i : nat) (old new : Slot) :
  slots !! i = Some old ->
  count_full (<[i := new]> slots) = count_full slots - b2z (Full old) + b2z (Full new).
Proof.
  revert i. induction slots as [|sl rest IH]; intros [|i] Hi; simpl in *; try discriminate.
  - injection Hi as ->. lia.
  - rewrite (IH i Hi). lia.
Qed.

Lemma count_full_free (slots : list Slot) (i : nat) (sl : Slot) :
  slots !! i = Some sl -> Full sl = false ->
  count_full slots < Z.of_nat (length slots).
Proof.
  revert i. induction slots as [|x l IH]; intros [|i] Hi Hn; try discriminate;
    cbn [count_full length]; rewrite Nat2Z.inj_succ.
  - injection Hi as ->. rewrite Hn. pose proof (count_full_bounds l). simpl. lia.
  - specialize (IH _ Hi Hn). destruct (Full x); simpl; lia.
Qed.

Lemma count_full_busy (slots : list Slot) (i : nat) (sl : Slot) :
  slots !! i = Some sl -> Full sl = true -> 1 <= count_full slots.
Proof.
  revert i. induction slots as [|x l IH]; intros [|i] Hi Hn; try discriminate;
    cbn [count_full].
  - injection Hi as ->. rewrite Hn. pose proof (count_full_bounds l). simpl. lia.
  - specialize (IH _ Hi Hn). destruct (Full x); simpl; lia.
Qed.

Lemma count_full_replicate (n : nat) : count_full (replicate n zeroSlot) = 0.
Proof. induction n as [|n IH]; simpl; [reflexivity | rewrite IH; reflexivity]. Qed.

Lemma find_free_Ok (slots : list Slot) (k j : nat) :
  find_free k slots = Ok j ->
  exists (i : nat) (sl : Slot),
    j = (k + i)%nat /\ slots !! i = Some sl /\ Full sl = false.
Proof.
  revert k. induction slots as [|sl rest IH]; intros k H; simpl in H; [discriminate|].
  destruct (Full sl) eqn:Hf; simpl in H.
  - destruct (IH _ H) as (i & sl' & -> & Hi & Hn).
    exists (S i), sl'. repeat split; [lia | exact Hi | exact Hn].
  - injection H as <-. exists 0%nat, sl. repeat split; [lia | exact Hf].
Qed.

Lemma find_free_Panic (slots : list Slot) (k : nat) (p : panic) :
  find_free k slots = Panic p ->
  p = AllSlotsUsed /\ count_full slots = Z.of_nat (length slots).
Proof.
  revert k. induction slots as [|sl rest IH]; intros k H; simpl in H.
  - injection H as <-. split; reflexivity.
  - destruct (Full sl) eqn:Hf; simpl in H; [|discriminate].
    destruct (IH _ H) as [-> Hc]. split; [reflexivity|].
    simpl. rewrite Hf, Hc. simpl. lia.
Qed.

(** ** The server invariant *)

Lemma wf_server_bounds (s : Server) : wf_server s -> 0 <= SlotsUsed s <= numSlots.
Proof.
  intros [Hl Hu _]. rewrite Hu, <- Hl. apply count_full_bounds.
Qed.

Lemma newServer_wf : wf_server newServer.
Proof.
  split; [reflexivity | reflexivity | discriminate].
Qed.

Lemma AddRequest_wf (r : Request) (s : Server) : wf_server s -> wf_server (AddRequest r s).
Proof.
  intros [Hl Hu Hq]. unfold AddRequest.
  destruct (_ <? _) eqn:Hlt; split; cbn [Queue Slots SlotsUsed]; try assumption.
  apply Z.ltb_lt in Hlt. rewrite length_app. cbn [length]. lia.
Qed.

(** With a free slot counted, [FindSlot] finds one. *)
Lemma FindSlot_free (s : Server) :
  wf_server s -> SlotsUsed s < numSlots ->
  exists (i : nat) (sl : Slot),
    FindSlot s = Ok i /\ Slots s !! i = Some sl /\ Full sl = false.
Proof.
  intros [Hl Hu _] Hlt. unfold FindSlot.
  destruct (find_free 0 (Slots s)) as [j|p] eqn:Hf.
  - destruct (find_free_Ok _ _ _ Hf) as (i & sl & -> & Hi & Hn).
    exists i, sl. auto.
  - destruct (find_free_Panic _ _ _ Hf) as [_ Hc]. lia.
Qed.

(** What [HandleRequest] builds, given the slot [FindSlot] returns. *)
Lemma HandleRequest_Ok (tm : Z) (r : Request) (s s' : Server) :
  HandleRequest tm r s = Ok s' ->
  exists (i : nat) (sl : Slot),
    FindSlot s = Ok i /\ Slots s !! i = Some sl /\ Full sl = false /\
    s' = {| Queue := Queue s;
            Slots := <[i := {| Full := true;
                               Req := {| Item := Item r; Sent := Sent r; Accepted := tm;
                                         Completed := add64 tm (handleTime (snd (lru_Get (Item r) (Cache s)))
                                                                           (SlotsUsed s));
                                         Cached := if snd (lru_Get (Item r) (Cache s))
                                                   then true else Cached r |} |}]> (Slots s);
            SlotsUsed := add64 (SlotsUsed s) 1;
            Cache := fst (lru_Get (Item r) (Cache s)) |}.
Proof.
  unfold HandleRequest, FindSlot. intros H.
  destruct (find_free 0 (Slots s)) as [j|p] eqn:Hf; simpl in H; [|discriminate].
  destruct (find_free_Ok _ _ _ Hf) as (i & sl & -> & Hi & Hn).
  exists i, sl. destruct (lru_Get (Item r) (Cache s)) as [c b]. simpl in *.
  injection H as <-. auto.
Qed.

Lemma HandleRequest_wf (tm : Z) (r : Request) (s s' : Server) :
  wf_server s -> HandleRequest tm r s = Ok s' -> wf_server s'.
Proof.
  intros Hwf H. destruct (HandleRequest_Ok _ _ _ _ H) as (i & sl & _ & Hi & Hn & ->).
  pose proof (wf_server_bounds _ Hwf) as Hb.
  destruct Hwf as [Hl Hu Hq].
  pose proof (count_full_bounds (Slots s)) as Hc.
  split; cbn [Queue Slots SlotsUsed]; [| |exact Hq].
  - rewrite length_insert. exact Hl.
  - rewrite (count_full_insert _ _ _ _ Hi), Hn. cbn [Full b2z].
    pose proof (count_full_free _ _ _ Hi Hn) as Hlt.
    unfold numSlots in *. rewrite add64_small by lia. lia.
Qed.

Lemma CompleteRequest_wf (i : nat) (s s' : Server) (sl : Slot) (r : Request) :
  wf_server s -> Slots s !! i = Some sl -> Full sl = true ->
  CompleteRequest i s = Ok (s', r) -> wf_server s' /\ r = Req sl.
Proof.
  intros Hwf Hi Hfull H. unfold CompleteRequest in H. rewrite Hi in H.
  injection H as <- <-.
  pose proof (wf_server_bounds _ Hwf) as Hb. destruct Hwf as [Hl Hu Hq].
  split; [|reflexivity]. split; cbn [Queue Slots SlotsUsed]; [| |exact Hq].
  - rewrite length_insert. exact Hl.
  - rewrite (count_full_insert _ _ _ _ Hi), Hfull. cbn [Full b2z].
    pose proof (count_full_busy _ _ _ Hi Hfull) as Hge.
    unfold numSlots in *. rewrite sub64_small by lia. lia.
Qed.

(** ** Service time *)

Lemma handleTime_exact (cached : bool) (u : Z) :
  0 <= u <= numSlots ->
  handleTime cached u = baseTime cached + surcharge (baseTime cached) u.
Proof.
  intros Hu. unfold handleTime, surcharge, baseTime.
  change (numSlots ÷ 2) with 4. unfold numSlots in Hu.
  destruct (4 <? u) eqn:Hlt; [|lia].
  apply Z.ltb_lt in Hlt.
  destruct cached.
  - change (cachedHandleTime ÷ numSlots) with 1. unfold cachedHandleTime.
    rewrite sub64_small by lia. rewrite mul64_small by lia. rewrite add64_small by lia.
    reflexivity.
  - change (uncachedHandleTime ÷ numSlots) with 12. unfold uncachedHandleTime.
    rewrite sub64_small by lia. rewrite mul64_small by lia. rewrite add64_small by lia.
    reflexivity.
Qed.

Lemma surcharge_mono (b b' u u' : Z) :
  0 <= b <= b' -> u <= u' -> surcharge b u <= surcharge b' u'.
Proof.
  intros Hb Hu. unfold surcharge. change (numSlots ÷ 2) with 4.
  assert (Hq : 0 <= b ÷ numSlots <= b' ÷ numSlots).
  { unfold numSlots. rewrite !Z.quot_div_nonneg by lia.
    split; [apply Z.div_pos; lia | apply Z.div_le_mono; lia]. }
  destruct (4 <? u) eqn:H1; destruct (4 <? u') eqn:H2;
    try apply Z.ltb_lt in H1; try apply Z.ltb_ge in H1;
    try apply Z.ltb_lt in H2; try apply Z.ltb_ge in H2; try lia; nia.
Qed.

Lemma handleTime_bounds (cached : bool) (u : Z) :
  0 <= u <= numSlots -> cachedHandleTime <= handleTime cached u <= 148.
Proof.
  intros Hu. rewrite handleTime_exact by exact Hu.
  unfold surcharge, baseTime. change (numSlots ÷ 2) with 4. unfold numSlots in Hu.
  destruct cached.
  - change (cachedHandleTime ÷ numSlots) with 1. unfold cachedHandleTime.
    destruct (4 <? u) eqn:H1; [apply Z.ltb_lt in H1|]; lia.
  - change (uncachedHandleTime ÷ numSlots) with 12.
    unfold cachedHandleTime, uncachedHandleTime.
    destruct (4 <? u) eqn:H1; [apply Z.ltb_lt in H1|]; lia.
Qed.

(** ** [Server.Tick] runs to completion and keeps the invariant *)

Lemma admitLoop_total (tm : Z) (q : list Request) (s : Server) :
  wf_server s -> Queue s = q ->
  exists s' : Server,
    admitLoop tm q s = Ok s' /\ wf_server s' /\ inflight s' = inflight s /\
    exists taken : list Request, q = taken ++ Queue s'.
Proof.
  revert s. induction q as [|r q' IH]; intros s Hwf Hq; cbn [admitLoop].
  - exists s. split; [reflexivity|]. split; [assumption|]. split; [reflexivity|].
    exists []. rewrite Hq. reflexivity.
  - destruct (SlotsUsed s <? numSlots) eqn:Hlt.
    + apply Z.ltb_lt in Hlt.
      destruct (FindSlot_free s Hwf Hlt) as (i & sl & Hf & Hi & Hn).
      destruct (HandleRequest tm r s) as [s1|p] eqn:Hh.
      2:{ unfold HandleRequest in Hh. rewrite Hf in Hh. simpl in Hh.
          destruct (lru_Get _ _). discriminate. }
      pose proof (HandleRequest_wf _ _ _ _ Hwf Hh) as Hwf1.
      destruct (HandleRequest_Ok _ _ _ _ Hh) as (i' & sl' & _ & _ & _ & Hs1).
      cbn [bind].
      set (s2 := {| Queue := q'; Slots := Slots s1; SlotsUsed := SlotsUsed s1;
                    Cache := Cache s1 |}).
      assert (Hwf2 : wf_server s2).
      { destruct Hwf1 as [Hl1 Hu1 _]. destruct Hwf as [_ _ Hq0].
        split; cbn [Queue Slots SlotsUsed s2]; try assumption.
        rewrite Hq in Hq0. cbn [length] in Hq0. lia. }
      destruct (IH s2 Hwf2 eq_refl) as (s' & Hs' & Hwf' & Hin & taken & Htk).
      exists s'. split; [assumption|]. split; [assumption|]. split.
      * rewrite Hin. unfold inflight. subst s2. cbn [Queue SlotsUsed].
        rewrite Hs1, Hq. cbn [Queue SlotsUsed length].
        pose proof (wf_server_bounds _ Hwf) as Hb. unfold numSlots in *.
        rewrite add64_small by lia. lia.
      * exists (r :: taken). rewrite Htk at 1. reflexivity.
    + exists s. split; [reflexivity|]. split; [assumption|]. split; [reflexivity|].
      exists []. rewrite Hq. reflexivity.
Qed.

Lemma release_total (tm : Z) (idx : list nat) (s : Server) (ret : list Request) :
  wf_server s -> Forall (fun i => (i < length (Slots s))%nat) idx ->
  exists (s' : Server) (done : list Request),
    release tm idx s ret = Ok (s', ret ++ done) /\ wf_server s' /\
    Queue s' = Queue s /\ SlotsUsed s' + Z.of_nat (length done) = SlotsUsed s.
Proof.
  revert s ret. induction idx as [|i rest IH]; intros s ret Hwf Hidx; cbn [release].
  - exists s, []. rewrite app_nil_r. cbn [length].
    split; [reflexivity|]. split; [assumption|]. split; [reflexivity|]. lia.
  - inversion Hidx as [|? ? Hi Hrest]; subst.
    destruct (lookup_lt_is_Some_2 _ _ Hi) as [sl Hsl]. rewrite Hsl.
    destruct (Full sl && (Completed (Req sl) <=? tm)) eqn:Hc.
    + apply andb_true_iff in Hc as [Hfull _].
      destruct (CompleteRequest i s) as [[s1 r]|p] eqn:Hcr.
      2:{ unfold CompleteRequest in Hcr. rewrite Hsl in Hcr. discriminate. }
      destruct (CompleteRequest_wf _ _ _ _ _ Hwf Hsl Hfull Hcr) as [Hwf1 ->].
      cbn [bind].
      assert (Hlen : length (Slots s1) = length (Slots s)).
      { unfold CompleteRequest in Hcr. rewrite Hsl in Hcr. injection Hcr as <-.
        cbn [Slots]. apply length_insert. }
      assert (Hq1 : Queue s1 = Queue s /\ SlotsUsed s1 = SlotsUsed s - 1).
      { unfold CompleteRequest in Hcr. rewrite Hsl in Hcr. injection Hcr as <-.
        cbn [Queue SlotsUsed]. split; [reflexivity|].
        pose proof (wf_server_bounds _ Hwf) as Hb. unfold numSlots in Hb.
        apply sub64_small. lia. }
      destruct Hq1 as [Hq1 Hu1].
      destruct (IH s1 (ret ++ [Req sl]) Hwf1) as (s' & done & Hr & Hwf' & Hq' & Hu').
      { rewrite Hlen. exact Hrest. }
      exists s', (Req sl :: done). rewrite Hr, <- app_assoc. cbn [app length].
      split; [reflexivity|]. split; [assumption|]. split; [congruence | lia].
    + destruct (IH s ret Hwf Hrest) as (s' & done & Hr & Hwf' & Hq' & Hu').
      exists s', done. auto.
Qed.

Lemma seq_in_range (n : nat) : Forall (fun i => (i < n)%nat) (seq 0 n).
Proof.
  apply List.Forall_forall. intros i Hi. apply in_seq in Hi. lia.
Qed.

Lemma Server_Tick_total (tm : Z) (s : Server) :
  wf_server s ->
  exists (s' : Server) (done : list Request),
    Server_Tick tm s = Ok (s', done) /\ wf_server s' /\
    inflight s' + Z.of_nat (length done) = inflight s /\
    (length (Queue s') <= length (Queue s))%nat.
Proof.
  intros Hwf. unfold Server_Tick.
  destruct (admitLoop_total tm (Queue s) s Hwf eq_refl) as (s1 & H1 & Hwf1 & Hin1 & tk & Htk).
  rewrite H1. cbn [bind].
  destruct (release_total tm (seq 0 (length (Slots s1))) s1 [] Hwf1 (seq_in_range _))
    as (s' & done & Hr & Hwf' & Hq' & Hu').
  exists s', done. rewrite Hr. cbn [app].
  split; [reflexivity|]. split; [assumption|]. split.
  - rewrite <- Hin1. unfold inflight. rewrite Hq'. lia.
  - rewrite Hq', Htk, length_app. lia.
Qed.

(** ** Time stamps *)

Lemma stamped_later (t t' : Z) (r : Request) : t <= t' -> stamped t r -> stamped t' r.
Proof. unfold stamped. lia. Qed.

Lemma timed_later (t t' : Z) (s : Server) : t <= t' -> timed t s -> timed t' s.
Proof.
  intros Hle [Hq Hs]. split.
  - eapply Forall_impl; [exact Hq|]. simpl. intros r Hr. lia.
  - eapply Forall_impl; [exact Hs|]. simpl. intros sl Hsl Hf.
    eapply stamped_later; eauto.
Qed.

Lemma newServer_timed (t : Z) : timed t newServer.
Proof.
  split; cbn [Queue Slots newServer]; [constructor|].
  apply Forall_replicate. intros H. discriminate.
Qed.

Lemma AddRequest_timed (t : Z) (r : Request) (s : Server) :
  Sent r <= t -> timed t s -> timed t (AddRequest r s).
Proof.
  intros Hr [Hq Hs]. unfold AddRequest.
  destruct (_ <? _); split; cbn [Queue Slots]; try assumption.
  apply Forall_app. split; [assumption|]. constructor; [assumption | constructor].
Qed.

Lemma HandleRequest_timed (t : Z) (r : Request) (s s' : Server) :
  tick_ok t -> wf_server s -> SlotsUsed s < numSlots ->
  Sent r <= t -> timed t s ->
  HandleRequest t r s = Ok s' ->
  Forall (fun sl => Full sl = true -> stamped t (Req sl)) (Slots s').
Proof.
  intros Ht Hwf Hlt Hr [Hq Hs] H.
  destruct (HandleRequest_Ok _ _ _ _ H) as (i & sl & _ & Hi & Hn & ->).
  cbn [Slots]. apply Forall_insert; [assumption|].
  intros _. unfold stamped. cbn [Req Sent Accepted Completed].
  pose proof (wf_server_bounds _ Hwf) as Hb.
  pose proof (handleTime_bounds (snd (lru_Get (Item r) (Cache s))) (SlotsUsed s) Hb) as Hh.
  unfold tick_ok, cachedHandleTime in *.
  rewrite add64_small by lia. lia.
Qed.

Lemma admitLoop_timed (t : Z) (q : list Request) (s s' : Server) :
  tick_ok t -> wf_server s -> Queue s = q -> timed t s ->
  admitLoop t q s = Ok s' -> timed t s'.
Proof.
  intros Ht. revert s. induction q as [|r q' IH]; intros s Hwf Hq Htm H; cbn [admitLoop] in H.
  - injection H as <-. exact Htm.
  - destruct (SlotsUsed s <? numSlots) eqn:Hlt.
    + apply Z.ltb_lt in Hlt.
      destruct (HandleRequest t r s) as [s1|p] eqn:Hh; cbn [bind] in H; [|discriminate].
      pose proof (timed_queue _ _ Htm) as Hqs. rewrite Hq in Hqs.
      inversion Hqs as [|? ? Hr Hq']; subst.
      apply IH in H; [exact H | | reflexivity |].
      * pose proof (HandleRequest_wf _ _ _ _ Hwf Hh) as [Hl Hu _].
        destruct Hwf as [_ _ Hq0]. rewrite Hq in Hq0. cbn [length] in Hq0.
        split; cbn [Queue Slots SlotsUsed]; try assumption. lia.
      * split; cbn [Queue Slots]; [assumption|].
        eapply HandleRequest_timed; eauto.
    + injection H as <-. exact Htm.
Qed.

Lemma release_timed (t : Z) (idx : list nat) (s s' : Server) (ret out : list Request) :
  timed t s -> Forall (completed_by t) ret ->
  release t idx s ret = Ok (s', out) ->
  timed t s' /\ Forall (completed_by t) out.
Proof.
  revert s ret. induction idx as [|i rest IH]; intros s ret Htm Hret H; cbn [release] in H.
  - injection H as <- <-. auto.
  - destruct (Slots s !! i) as [sl|] eqn:Hsl; [|discriminate].
    destruct (Full sl && (Completed (Req sl) <=? t)) eqn:Hc.
    + apply andb_true_iff in Hc as [Hfull Hdone]. apply Z.leb_le in Hdone.
      unfold CompleteRequest in H. rewrite Hsl in H. cbn [bind] in H.
      destruct Htm as [Hq Hs].
      pose proof (proj1 (Forall_lookup _ _) Hs i sl Hsl Hfull) as Hst.
      eapply IH in H; [exact H | |].
      * split; cbn [Queue Slots]; [assumption|].
        apply Forall_insert; [assumption|]. cbn [Full]. intros Hx. discriminate.
      * apply Forall_app. split; [assumption|].
        constructor; [split; assumption | constructor].
    + eapply IH in H; eauto.
Qed.

Lemma Server_Tick_timed (t : Z) (s s' : Server) (done : list Request) :
  tick_ok t -> wf_server s -> timed t s ->
  Server_Tick t s = Ok (s', done) ->
  timed t s' /\ Forall (completed_by t) done.
Proof.
  intros Ht Hwf Htm H. unfold Server_Tick in H.
  destruct (admitLoop t (Queue s) s) as [s1|p] eqn:Ha; cbn [bind] in H; [|discriminate].
  pose proof (admitLoop_timed _ _ _ _ Ht Hwf eq_refl Htm Ha) as Htm1.
  eapply release_timed in H; eauto.
Qed.

(** ** The engine *)

Lemma total_inflight_insert (ss : list Server) (i : nat) (old new : Server) :
  ss !! i = Some old ->
  total_inflight (<[i := new]> ss) = total_inflight ss - inflight old + inflight new.
Proof.
  revert i. induction ss as [|s rest IH]; intros [|i] Hi; simpl in *; try discriminate.
  - injection Hi as ->. lia.
  - rewrite (IH i Hi). lia.
Qed.

Lemma index_Ok {A : Type} (l : list A) (i : Z) (a : A) :
  index l i = Ok a -> 0 <= i /\ l !! Z.to_nat i = Some a.
Proof.
  unfold index. destruct (i <? 0) eqn:Hi; [discriminate|].
  apply Z.ltb_ge in Hi. destruct (l !! Z.to_nat i); [|discriminate].
  intros H. injection H as ->. auto.
Qed.

Lemma index_Panic {A : Type} (l : list A) (i : Z) (p : panic) :
  index l i = Panic p -> p = IndexOutOfRange.
Proof.
  unfold index. destruct (i <? 0); [congruence|].
  destruct (l !! Z.to_nat i); congruence.
Qed.

Lemma modchoose2_Panic (ss : list Server) (r : Request) (p : panic) :
  modchoose2 ss r = Panic p -> p = IndexOutOfRange.
Proof.
  unfold modchoose2. intros H.
  destruct (index ss _) as [s2|p2] eqn:H2; cbn [bind] in H.
  - destruct (index ss (Z.rem (Item r) numServers)) as [s1|p1] eqn:H1; cbn [bind] in H.
    + destruct (_ <? _); discriminate.
    + injection H as <-. eapply index_Panic; eauto.
  - injection H as <-. eapply index_Panic; eauto.
Qed.

Lemma ChooseServer_Panic (pol : Policy) (sim : Sim) (r : Request) (pick : Z) (p : panic) :
  ChooseServer pol sim r pick = Panic p -> p = IndexOutOfRange.
Proof.
  destruct pol; cbn [ChooseServer]; try discriminate.
  destruct (modchoose2 (servers sim) r) eqn:H; cbn [bind]; [discriminate|].
  intros H'. injection H' as <-. eapply modchoose2_Panic; eauto.
Qed.

Lemma AddRequest_inflight (r : Request) (s : Server) :
  inflight (AddRequest r s) + b2z (queue_full s) = inflight s + 1.
Proof.
  unfold AddRequest, queue_full, inflight.
  destruct (_ <? _); cbn [Queue SlotsUsed negb b2z]; [|lia].
  rewrite length_app. cbn [length]. lia.
Qed.

Lemma dispatch_Panic (pol : Policy) (reqs : list (Request * Z)) (sim : Sim) (p : panic) :
  dispatch pol reqs sim = Panic p -> p = IndexOutOfRange.
Proof.
  revert sim. induction reqs as [|[r pick] rest IH]; intros sim H; cbn [dispatch] in H.
  - discriminate.
  - destruct (ChooseServer pol sim r pick) as [[i rr]|p1] eqn:Hc; cbn [bind] in H.
    + destruct (index (servers sim) i) as [s|p2] eqn:Hi; cbn [bind] in H.
      * eapply IH; eauto.
      * injection H as <-. eapply index_Panic; eauto.
    + injection H as <-. eapply ChooseServer_Panic; eauto.
Qed.

(** The dispatch loop touches the servers only through [AddRequest]. *)
Lemma dispatch_preserves (P : Server -> Prop) (pol : Policy)
      (reqs : list (Request * Z)) (sim sim' : Sim) :
  (forall (r : Request) (pick : Z) (s : Server),
      In (r, pick) reqs -> P s -> P (AddRequest r s)) ->
  Forall P (servers sim) ->
  dispatch pol reqs sim = Ok sim' ->
  Forall P (servers sim').
Proof.
  revert sim. induction reqs as [|[r pick] rest IH]; intros sim HP Hall H;
    cbn [dispatch] in H.
  - injection H as <-. exact Hall.
  - destruct (ChooseServer pol sim r pick) as [[i rr]|p1] eqn:Hc; cbn [bind] in H;
      [|discriminate].
    destruct (index (servers sim) i) as [s|p2] eqn:Hi; cbn [bind] in H; [|discriminate].
    apply index_Ok in Hi as [_ Hi].
    eapply IH in H; [exact H | |].
    + intros r0 pick0 s0 Hin. apply (HP r0 pick0). right. exact Hin.
    + cbn [servers]. apply Forall_insert; [exact Hall|].
      apply (HP r pick); [left; reflexivity|].
      exact (proj1 (Forall_lookup _ _) Hall _ _ Hi).
Qed.

Lemma dispatch_frame (pol : Policy) (reqs : list (Request * Z)) (sim sim' : Sim) :
  dispatch pol reqs sim = Ok sim' ->
  tm sim' = tm sim /\ released sim' = released sim /\
  balance sim' = balance sim /\
  totalRequests (stats sim') = totalRequests (stats sim) + Z.of_nat (length reqs) /\
  acceptedRequests (stats sim') = acceptedRequests (stats sim) /\
  length (servers sim') = length (servers sim).
Proof.
  revert sim. induction reqs as [|[r pick] rest IH]; intros sim H; cbn [dispatch] in H.
  - injection H as <-. cbn [length]. repeat split; lia.
  - destruct (ChooseServer pol sim r pick) as [[i rr]|p1] eqn:Hc; cbn [bind] in H;
      [|discriminate].
    destruct (index (servers sim) i) as [s|p2] eqn:Hi; cbn [bind] in H; [|discriminate].
    apply index_Ok in Hi as [_ Hi].
    apply IH in H as (Htm & Hrel & Hbal & Htot & Hacc & Hlen).
    cbn [tm released stats totalRequests acceptedRequests servers] in *.
    rewrite length_insert in Hlen.
    split; [exact Htm|]. split; [exact Hrel|]. split; [|split; [|split]]; try assumption.
    + rewrite Hbal. unfold balance.
      cbn [stats totalRequests acceptedRequests droppedCount servers].
      rewrite (total_inflight_insert _ _ _ _ Hi).
      pose proof (AddRequest_inflight r s) as Ha.
      destruct (queue_full s); cbn [b2z] in Ha; lia.
    + rewrite Htot. cbn [length]. lia.
Qed.

Lemma RecordStats_fold (done : list Request) (st : Stats) :
  totalRequests (fold_left RecordStats done st) = totalRequests st /\
  acceptedRequests (fold_left RecordStats done st)
  = acceptedRequests st + Z.of_nat (length done).
Proof.
  revert st. induction done as [|r rest IH]; intros st; cbn [fold_left length].
  - split; lia.
  - destruct (IH (RecordStats st r)) as [H1 H2]. rewrite H1, H2.
    cbn [RecordStats totalRequests acceptedRequests]. split; lia.
Qed.

Lemma tick_servers_total (t : Z) (ss : list Server) (st : Stats) :
  Forall wf_server ss ->
  exists (ss' : list Server) (st' : Stats) (done : list Request),
    tick_servers t ss st = Ok (ss', st', done) /\
    Forall wf_server ss' /\ length ss' = length ss /\
    total_inflight ss' + Z.of_nat (length done) = total_inflight ss /\
    totalRequests st' = totalRequests st /\
    acceptedRequests st' = acceptedRequests st + Z.of_nat (length done).
Proof.
  revert st. induction ss as [|s rest IH]; intros st Hall; cbn [tick_servers].
  - exists [], st, []. cbn [length total_inflight].
    split; [reflexivity|]. split; [constructor|]. repeat split; lia.
  - inversion Hall as [|? ? Hs Hrest]; subst.
    destruct (Server_Tick_total t s Hs) as (s' & done & Ht & Hwf' & Hin & _).
    rewrite Ht. cbn [bind].
    destruct (IH (fold_left RecordStats done st) Hrest)
      as (rest' & st' & log & Hr & Hwfr & Hlen & Hinr & Htot & Hacc).
    rewrite Hr. cbn [bind].
    exists (s' :: rest'), st', (done ++ log).
    destruct (RecordStats_fold done st) as [Hf1 Hf2].
    split; [reflexivity|]. split; [constructor; assumption|].
    cbn [length total_inflight]. rewrite length_app.
    repeat split; lia.
Qed.

Lemma tick_servers_timed (t : Z) (ss ss' : list Server) (st st' : Stats)
      (done : list Request) :
  tick_ok t -> Forall wf_server ss -> Forall (timed t) ss ->
  tick_servers t ss st = Ok (ss', st', done) ->
  Forall (timed t) ss' /\ Forall (completed_by t) done.
Proof.
  intros Ht. revert st ss' done.
  induction ss as [|s rest IH]; intros st ss' done Hwf Htm H; cbn [tick_servers] in H.
  - injection H as <- <- <-. split; constructor.
  - inversion Hwf as [|? ? Hs Hrest]; subst.
    inversion Htm as [|? ? Hts Htrest]; subst.
    destruct (Server_Tick t s) as [[s1 d1]|p] eqn:Hst; cbn [bind] in H; [|discriminate].
    destruct (tick_servers t rest _) as [[[rest1 st1] log]|p] eqn:Hr; cbn [bind] in H;
      [|discriminate].
    injection H as <- <- <-.
    destruct (Server_Tick_timed _ _ _ _ Ht Hs Hts Hst) as [Hts1 Hd1].
    destruct (IH _ _ _ Hrest Htrest Hr) as [Htr Hlog].
    split; [constructor; assumption|]. apply Forall_app. auto.
Qed.

(** Under the invariant the sum in [Outstanding] does not wrap. *)
Lemma Outstanding_wf (s : Server) : wf_server s -> Outstanding s = inflight s.
Proof.
  intros Hwf. pose proof (wf_server_bounds _ Hwf) as Hb. destruct Hwf as [_ _ Hq].
  unfold Outstanding, inflight, numSlots, maxQueue in *. apply add64_small. lia.
Qed.

(** ** Draining: the work a server still holds *)

Lemma slot_work_nonneg (t : Z) (sl : Slot) : b2z (Full sl) <= slot_work t sl.
Proof. unfold slot_work. destruct (Full sl); cbn [b2z]; lia. Qed.

Lemma slots_work_count (t : Z) (slots : list Slot) :
  count_full slots <= slots_work t slots.
Proof.
  induction slots as [|sl rest IH]; cbn [count_full slots_work]; [lia|].
  pose proof (slot_work_nonneg t sl). lia.
Qed.

Lemma slots_work_idle (t : Z) (slots : list Slot) :
  count_full slots = 0 -> slots_work t slots = 0.
Proof.
  induction slots as [|sl rest IH]; cbn [count_full slots_work]; [reflexivity|].
  pose proof (count_full_bounds rest) as Hb. unfold slot_work.
  destruct (Full sl); cbn [b2z]; intros Hz; [lia|]. rewrite IH; lia.
Qed.

Lemma slots_work_insert (t : Z) (slots : list Slot) (i : nat) (old new : Slot) :
  slots !! i = Some old ->
  slots_work t (<[i := new]> slots)
  = slots_work t slots - slot_work t old + slot_work t new.
Proof.
  revert i. induction slots as [|sl rest IH]; intros [|i] Hi; simpl in *; try discriminate.
  - injection Hi as ->. lia.
  - rewrite (IH i Hi). lia.
Qed.

(** One tick later every pending slot weighs one less. *)
Lemma slots_work_step (t : Z) (slots : list Slot) :
  Forall (pending t) slots ->
  slots_work (t + 1) slots + count_full slots = slots_work t slots.
Proof.
  induction 1 as [|sl rest Hp _ IH]; cbn [count_full slots_work]; [reflexivity|].
  unfold slot_work, pending in *.
  destruct (Full sl); cbn [b2z]; [specialize (Hp eq_refl)|]; lia.
Qed.

Lemma slots_work_bound (t : Z) (slots : list Slot) :
  Forall (fun sl => Full sl = true -> stamped t (Req sl)) slots ->
  slots_work t slots <= 149 * Z.of_nat (length slots).
Proof.
  induction 1 as [|sl rest Hs _ IH]; cbn [slots_work length]; [lia|].
  rewrite Nat2Z.inj_succ. unfold slot_work, stamped in *.
  destruct (Full sl); [specialize (Hs eq_refl)|]; lia.
Qed.

Lemma work_bound (t : Z) (s : Server) :
  wf_server s -> timed t s -> 0 <= work t s <= 8692.
Proof.
  intros [Hl _ Hq] [_ Hs]. unfold work.
  pose proof (slots_work_bound _ _ Hs) as Hb.
  pose proof (slots_work_count t (Slots s)) as Hc.
  pose proof (count_full_bounds (Slots s)).
  unfold numSlots, maxQueue in *. lia.
Qed.

Lemma work_idle (t : Z) (s : Server) :
  wf_server s -> work t s <= 0 -> Outstanding s = 0.
Proof.
  intros Hwf Hw. rewrite (Outstanding_wf _ Hwf).
  pose proof (wf_server_bounds _ Hwf) as Hb. destruct Hwf as [_ Hu _].
  pose proof (slots_work_count t (Slots s)) as Hc.
  unfold work, inflight in *. lia.
Qed.

Lemma HandleRequest_work (t : Z) (r : Request) (s s' : Server) :
  tick_ok t -> wf_server s -> SlotsUsed s < numSlots ->
  HandleRequest t r s = Ok s' ->
  slots_work t (Slots s') <= slots_work t (Slots s) + 149.
Proof.
  intros Ht Hwf Hlt H.
  destruct (HandleRequest_Ok _ _ _ _ H) as (i & sl & _ & Hi & Hn & ->).
  cbn [Slots]. rewrite (slots_work_insert _ _ _ _ _ Hi).
  unfold slot_work. rewrite Hn. cbn [Full Req Completed].
  pose proof (wf_server_bounds _ Hwf) as Hb.
  pose proof (handleTime_bounds (snd (lru_Get (Item r) (Cache s))) (SlotsUsed s) Hb) as Hh.
  unfold tick_ok, cachedHandleTime in *.
  rewrite add64_small by lia. lia.
Qed.

(** Every admission lowers the work of the server. *)
Lemma admitLoop_work (t : Z) (q : list Request) (s s' : Server) :
  tick_ok t -> wf_server s -> Queue s = q ->
  admitLoop t q s = Ok s' ->
  work t s' + (Z.of_nat (length q) - Z.of_nat (length (Queue s'))) <= work t s /\
  (length (Queue s') <= length q)%nat /\
  (SlotsUsed s < numSlots -> q <> [] -> (length (Queue s') < length q)%nat).
Proof.
  intros Ht. revert s. induction q as [|r q' IH]; intros s Hwf Hq H; cbn [admitLoop] in H.
  - injection H as <-. rewrite Hq. cbn [length]. split; [lia|]. split; [lia|]. congruence.
  - destruct (SlotsUsed s <? numSlots) eqn:Hlt.
    + apply Z.ltb_lt in Hlt.
      destruct (HandleRequest t r s) as [s1|p] eqn:Hh; cbn [bind] in H; [|discriminate].
      pose proof (HandleRequest_work _ _ _ _ Ht Hwf Hlt Hh) as Hw1.
      pose proof (HandleRequest_wf _ _ _ _ Hwf Hh) as [Hl1 Hu1 _].
      destruct Hwf as [_ _ Hq0]. rewrite Hq in Hq0. cbn [length] in Hq0.
      apply IH in H as (Hw & Hle & _); [| |reflexivity].
      2:{ split; cbn [Queue Slots SlotsUsed]; try assumption. lia. }
      unfold work in *. cbn [Queue Slots] in Hw. rewrite Hq. cbn [length].
      split; [lia|]. split; lia.
    + injection H as <-. rewrite Hq. apply Z.ltb_ge in Hlt.
      split; [lia|]. split; [lia|]. lia.
Qed.

Lemma release_work (t : Z) (idx : list nat) (s s' : Server) (ret out : list Request) :
  release t idx s ret = Ok (s', out) ->
  Queue s' = Queue s /\ slots_work t (Slots s') <= slots_work t (Slots s) /\
  length (Slots s') = length (Slots s).
Proof.
  revert s ret. induction idx as [|i rest IH]; intros s ret H; cbn [release] in H.
  - injection H as <- <-. split; [reflexivity|]. split; [lia | reflexivity].
  - destruct (Slots s !! i) as [sl|] eqn:Hsl; [|discriminate].
    destruct (Full sl && (Completed (Req sl) <=? t)).
    + unfold CompleteRequest in H. rewrite Hsl in H. cbn [bind] in H.
      apply IH in H as (Hq & Hw & Hl). cbn [Queue Slots] in *.
      rewrite (slots_work_insert _ _ _ _ _ Hsl) in Hw. rewrite length_insert in Hl.
      pose proof (slot_work_nonneg t sl) as H0. destruct (Full sl); cbn [b2z] in H0;
        unfold slot_work at 2 in Hw; cbn [Full] in Hw;
        split; [assumption | split; [lia | assumption] | assumption | split; [lia | assumption]].
    + apply IH in H. exact H.
Qed.

(** The scan leaves every slot it visits pending. *)
Lemma release_pending (t : Z) (n k : nat) (s s' : Server) (ret out : list Request) :
  Forall (pending t) (take k (Slots s)) ->
  release t (seq k n) s ret = Ok (s', out) ->
  Forall (pending t) (take (k + n) (Slots s')).
Proof.
  revert k s ret. induction n as [|n IH]; intros k s ret Hp H; cbn [seq release] in H.
  - injection H as <- <-. rewrite Nat.add_0_r. exact Hp.
  - destruct (Slots s !! k) as [sl|] eqn:Hsl; [|discriminate].
    replace (k + S n)%nat with (S k + n)%nat by lia.
    destruct (Full sl && (Completed (Req sl) <=? t)) eqn:Hc.
    + unfold CompleteRequest in H. rewrite Hsl in H. cbn [bind] in H.
      apply IH in H; [exact H|]. cbn [Slots].
      assert (Hk : (k < length (Slots s))%nat) by (eapply lookup_lt_Some; exact Hsl).
      rewrite (take_S_r _ _ {| Full := false; Req := Req sl |})
        by (apply list_lookup_insert_eq; exact Hk).
      apply Forall_app. split.
      * rewrite take_insert_ge by lia. exact Hp.
      * constructor; [|constructor]. intros Hx. discriminate.
    + apply IH in H; [exact H|].
      rewrite (take_S_r _ _ sl) by exact Hsl.
      apply Forall_app. split; [exact Hp|]. constructor; [|constructor].
      intros Hf. rewrite Hf in Hc. cbn [andb] in Hc. apply Z.leb_gt in Hc. exact Hc.
Qed.

(** A tick without arrivals lowers the work of a server that holds any. *)
Lemma Server_Tick_work (t : Z) (s s' : Server) (done : list Request) :
  0 <= t < 4611686018427387904 -> wf_server s -> settled t s ->
  Server_Tick (t + 1) s = Ok (s', done) ->
  settled (t + 1) s' /\ work (t + 1) s' <= Z.max 0 (work t s - 1).
Proof.
  intros Ht Hwf Hp H. unfold Server_Tick in H.
  assert (Hok : tick_ok (t + 1)) by (unfold tick_ok; lia).
  destruct (admitLoop (t + 1) (Queue s) s) as [s1|p] eqn:Ha; cbn [bind] in H; [|discriminate].
  destruct (admitLoop_work _ _ _ _ Hok Hwf eq_refl Ha) as (Hw1 & Hle & Hprog).
  pose proof (release_work _ _ _ _ _ _ H) as (Hq & Hw2 & Hl).
  split.
  - assert (Hp0 : Forall (pending (t + 1)) (take 0 (Slots s1))) by constructor.
    pose proof (release_pending _ _ _ _ _ _ _ Hp0 H) as Hp'.
    cbn [Nat.add] in Hp'. rewrite <- Hl in Hp'. rewrite take_ge in Hp' by lia.
    exact Hp'.
  - pose proof (slots_work_step _ _ Hp) as Hstep.
    pose proof (wf_server_bounds _ Hwf) as Hb.
    pose proof (wf_used _ Hwf) as Hu.
    pose proof (slots_work_count (t + 1) (Slots s')) as Hc'.
    pose proof (count_full_bounds (Slots s')) as Hc''.
    unfold work in *. rewrite Hq.
    destruct (Z.eq_dec (count_full (Slots s)) 0) as [Hz|Hnz].
    + destruct (Queue s) as [|r q] eqn:Hqs.
      * cbn [admitLoop] in Ha. injection Ha as <-. rewrite Hqs in *. cbn [length] in *.
        pose proof (slots_work_idle (t + 1) _ Hz) as Hi1. lia.
      * assert (Hlt : (length (Queue s1) < length (r :: q))%nat).
        { apply Hprog; [unfold numSlots; lia | discriminate]. }
        lia.
    + lia.
Qed.

Lemma tick_servers_preserves (P Q : Server -> Prop) (t : Z)
      (ss ss' : list Server) (st st' : Stats) (done : list Request) :
  (forall (s s' : Server) (d : list Request),
      P s -> Server_Tick t s = Ok (s', d) -> Q s') ->
  Forall P ss ->
  tick_servers t ss st = Ok (ss', st', done) -> Forall Q ss'.
Proof.
  intros HPQ. revert st ss' done.
  induction ss as [|s rest IH]; intros st ss' done HP H; cbn [tick_servers] in H.
  - injection H as <- <- <-. constructor.
  - inversion HP as [|? ? Hs Hrest]; subst.
    destruct (Server_Tick t s) as [[s1 d1]|p] eqn:Hst; cbn [bind] in H; [|discriminate].
    destruct (tick_servers t rest _) as [[[rest1 st1] log]|p] eqn:Hr; cbn [bind] in H;
      [|discriminate].
    injection H as <- <- <-. constructor; [eapply HPQ; eauto | eapply IH; eauto].
Qed.

Lemma total_Outstanding_idle (ss : list Server) :
  Forall (fun s => Outstanding s = 0) ss -> total_Outstanding ss = 0.
Proof.
  unfold total_Outstanding. induction 1 as [|s rest Hs _ IH]; cbn [fold_left].
  - reflexivity.
  - rewrite Hs. exact IH.
Qed.

Lemma Tick_Panic (pol : Policy) (draws : list Draw) (sim : Sim) (p : panic) :
  Forall wf_server (servers sim) ->
  Tick pol draws sim = Panic p -> p = IndexOutOfRange.
Proof.
  intros Hwf H. unfold Tick in H.
  match type of H with
  | bind ?d _ = _ => destruct d as [sim2|p2] eqn:Hd; cbn [bind] in H
  end.
  - assert (Hwf2 : Forall wf_server (servers sim2)).
    { destruct (_ <=? requestLimit).
      - eapply dispatch_preserves in Hd; [exact Hd | | exact Hwf].
        intros r pick s _. apply AddRequest_wf.
      - injection Hd as <-. exact Hwf. }
    destruct (tick_servers_total (add64 (tm sim) 1) _ (stats sim2) Hwf2)
      as (ss' & st' & done & Ht & _).
    rewrite Ht in H. discriminate.
  - injection H as <-. destruct (_ <=? requestLimit); [|discriminate].
    eapply dispatch_Panic; eauto.
Qed.

Lemma Tick_Ok (pol : Policy) (draws : list Draw) (sim sim' : Sim) :
  Forall wf_server (servers sim) ->
  Tick pol draws sim = Ok sim' ->
  tm sim' = add64 (tm sim) 1 /\ Forall wf_server (servers sim') /\
  balance sim' = balance sim /\ length (servers sim') = length (servers sim).
Proof.
  intros Hwf H. unfold Tick in H.
  match type of H with
  | bind ?d _ = _ => destruct d as [sim2|p2] eqn:Hd; cbn [bind] in H; [|discriminate]
  end.
  assert (H2 : Forall wf_server (servers sim2) /\ balance sim2 = balance sim /\
               length (servers sim2) = length (servers sim)).
  { destruct (_ <=? requestLimit).
    - split.
      + eapply dispatch_preserves in Hd; [exact Hd | | exact Hwf].
        intros r pick s _. apply AddRequest_wf.
      + apply dispatch_frame in Hd as (_ & _ & Hb & _ & _ & Hl). auto.
    - injection Hd as <-. auto. }
  destruct H2 as (Hwf2 & Hb2 & Hl2).
  destruct (tick_servers_total (add64 (tm sim) 1) _ (stats sim2) Hwf2)
    as (ss' & st' & done & Ht & Hwf' & Hlen & Hin & Htot & Hacc).
  rewrite Ht in H. cbn [bind] in H. injection H as <-.
  cbn [tm servers]. split; [reflexivity|]. split; [assumption|].
  split; [|congruence].
  rewrite <- Hb2. unfold balance. cbn [stats servers droppedCount]. lia.
Qed.

Lemma Tick_timed (pol : Policy) (draws : list Draw) (sim sim' : Sim) :
  0 <= tm sim < 4611686018427387904 ->
  Forall wf_server (servers sim) ->
  Forall (timed (tm sim)) (servers sim) ->
  Forall released_ok (released sim) ->
  Tick pol draws sim = Ok sim' ->
  tm sim' = tm sim + 1 /\
  Forall (timed (tm sim')) (servers sim') /\ Forall released_ok (released sim').
Proof.
  intros Hb Hwf Htm Hrel H. unfold Tick in H.
  assert (Et : add64 (tm sim) 1 = tm sim + 1) by (apply add64_small; lia).
  rewrite Et in H.
  assert (Hok : tick_ok (tm sim + 1)) by (unfold tick_ok; lia).
  assert (Htm1 : Forall (timed (tm sim + 1)) (servers sim)).
  { eapply Forall_impl; [exact Htm|]. intros s Hs. eapply timed_later; [|exact Hs]. lia. }
  match type of H with
  | bind ?d _ = _ => destruct d as [sim2|p2] eqn:Hd; cbn [bind] in H; [|discriminate]
  end.
  assert (H2 : Forall wf_server (servers sim2) /\ Forall (timed (tm sim + 1)) (servers sim2)
               /\ released sim2 = released sim).
  { destruct (_ <=? requestLimit).
    - split; [|split].
      + eapply dispatch_preserves in Hd; [exact Hd | | exact Hwf].
        intros r pick s _. apply AddRequest_wf.
      + eapply dispatch_preserves in Hd; [exact Hd | | exact Htm1].
        intros r pick s Hin. apply AddRequest_timed.
        apply in_combine_l in Hin. unfold GenerateRequests in Hin.
        apply in_map_iff in Hin as (d & <- & _). cbn [Sent]. lia.
      + apply dispatch_frame in Hd as (_ & Hr & _). exact Hr.
    - injection Hd as <-. auto. }
  destruct H2 as (Hwf2 & Htm2 & Hrel2).
  destruct (tick_servers (tm sim + 1) (servers sim2) (stats sim2))
    as [[[ss' st'] done]|p] eqn:Ht; cbn [bind] in H; [|discriminate].
  injection H as <-. cbn [tm servers released].
  destruct (tick_servers_timed _ _ _ _ _ _ Hok Hwf2 Htm2 Ht) as [Hs' Hdone].
  split; [reflexivity|]. split; [assumption|].
  apply Forall_app. split; [rewrite Hrel2; assumption|].
  apply Forall_map. eapply Forall_impl; [exact Hdone|].
  intros r Hr. exact Hr.
Qed.

Lemma Tick_drains (pol : Policy) (draws : list Draw) (sim sim' : Sim) :
  0 <= tm sim < 4611686018427387904 ->
  Forall wf_server (servers sim) ->
  Forall (timed (tm sim)) (servers sim) ->
  Forall released_ok (released sim) ->
  Forall (settled (tm sim)) (servers sim) ->
  Forall (fun s => work (tm sim) s <= Z.max 0 (lastTick - tm sim)) (servers sim) ->
  Tick pol draws sim = Ok sim' ->
  Forall (settled (tm sim')) (servers sim') /\
  Forall (fun s => work (tm sim') s <= Z.max 0 (lastTick - tm sim')) (servers sim').
Proof.
  intros Hb Hwf Htm Hrel Hset Hwork H.
  destruct (Tick_Ok _ _ _ _ Hwf H) as (_ & Hwf' & _).
  destruct (Tick_timed _ _ _ _ Hb Hwf Htm Hrel H) as (Et' & Htm' & _).
  unfold Tick in H.
  assert (Et : add64 (tm sim) 1 = tm sim + 1) by (apply add64_small; lia).
  rewrite Et in H.
  set (P := fun s : Server =>
              wf_server s /\ settled (tm sim) s /\
              (requestLimit < tm sim + 1 -> work (tm sim) s <= Z.max 0 (lastTick - tm sim))).
  set (Q := fun s : Server =>
              settled (tm sim + 1) s /\
              (requestLimit < tm sim + 1 ->
               work (tm sim + 1) s <= Z.max 0 (lastTick - (tm sim + 1)))).
  assert (HP : Forall P (servers sim)).
  { apply List.Forall_forall. intros s Hin. unfold P.
    split; [exact (proj1 (List.Forall_forall _ _) Hwf _ Hin)|].
    split; [exact (proj1 (List.Forall_forall _ _) Hset _ Hin)|].
    intros _. exact (proj1 (List.Forall_forall _ _) Hwork _ Hin). }
  match type of H with
  | bind ?d _ = _ => destruct d as [sim2|p2] eqn:Hd; cbn [bind] in H; [|discriminate]
  end.
  assert (HP2 : Forall P (servers sim2)).
  { destruct (tm sim + 1 <=? requestLimit) eqn:Hle.
    - apply Z.leb_le in Hle.
      eapply dispatch_preserves in Hd; [exact Hd | | exact HP].
      intros r pick s _ (Hw & Hs & _). unfold P.
      split; [apply AddRequest_wf; exact Hw|]. split; [|intros; lia].
      unfold settled, AddRequest in *. destruct (_ <? maxQueue); exact Hs.
    - injection Hd as <-. exact HP. }
  destruct (tick_servers (tm sim + 1) (servers sim2) (stats sim2))
    as [[[ss' st'] done]|p] eqn:Ht; cbn [bind] in H; [|discriminate].
  assert (HQ : Forall Q ss').
  { eapply tick_servers_preserves; [|exact HP2|exact Ht].
    intros s s' d (Hw & Hs & Hk) Hst.
    destruct (Server_Tick_work _ _ _ _ Hb Hw Hs Hst) as [Hs' Hw'].
    split; [exact Hs'|]. intros Hlate. specialize (Hk Hlate). lia. }
  injection H as <-. cbn [tm servers] in *.
  split.
  - eapply Forall_impl; [exact HQ|]. intros s [Hs _]. exact Hs.
  - apply List.Forall_forall. intros s Hin.
    destruct (Z_lt_le_dec requestLimit (tm sim + 1)) as [Hlate|Hearly].
    + exact (proj2 (proj1 (List.Forall_forall _ _) HQ _ Hin) Hlate).
    + pose proof (work_bound _ _ (proj1 (List.Forall_forall _ _) Hwf' _ Hin)
                               (proj1 (List.Forall_forall _ _) Htm' _ Hin)) as Hwb.
      unfold lastTick. lia.
Qed.

(** ** The main loop *)

Lemma main_init_inv : main_inv main_init.
Proof.
  split; cbn [sim main_init tm init servers released resets].
  - lia.
  - apply Forall_replicate. exact newServer_wf.
  - apply Forall_replicate. apply newServer_timed.
  - constructor.
  - apply Forall_replicate. apply Forall_replicate. intros Hx. discriminate.
  - apply Forall_replicate. vm_compute. discriminate.
  - reflexivity.
  - intros _. reflexivity.
Qed.

Lemma main_body_Ok (pol : Policy) (draws : list Draw) (m m' : Main) (finish : bool) :
  main_body pol draws m = Ok (m', finish) ->
  exists sim1 : Sim,
    Tick pol draws (sim m) = Ok sim1 /\
    tm (sim m') = tm sim1 /\ servers (sim m') = servers sim1 /\
    released (sim m') = released sim1 /\ droppedCount (sim m') = droppedCount sim1 /\
    finish = (total_Outstanding (servers sim1) =? 0) && (requestLimit <=? tm sim1) /\
    if tm sim1 =? requestLimit ÷ 2
    then stats (sim m') = zeroStats /\ tmx m' = 0 /\ resets m' = resets m + 1
    else stats (sim m') = stats sim1 /\ tmx m' = tmx m + 1 /\ resets m' = resets m.
Proof.
  unfold main_body. intros H.
  destruct (Tick pol draws (sim m)) as [sim1|p] eqn:Ht; cbn [bind] in H; [|discriminate].
  injection H as <- <-. exists sim1. cbn [sim tm servers released droppedCount stats tmx resets].
  repeat (split; [reflexivity|]).
  destruct (tm sim1 =? requestLimit ÷ 2); auto.
Qed.

Lemma main_body_inv (pol : Policy) (draws : list Draw) (m m' : Main) (finish : bool) :
  main_inv m -> tm (sim m) < lastTick ->
  main_body pol draws m = Ok (m', finish) ->
  main_inv m' /\ tm (sim m') = tm (sim m) + 1 /\
  (finish = true -> requestLimit <= tm (sim m')) /\
  (lastTick <= tm (sim m') -> finish = true).
Proof.
  intros [Htm Hwf Htmd Hrel Hset Hwork Hres Hbal] Hlt H. unfold lastTick, requestLimit in Hlt.
  destruct (main_body_Ok _ _ _ _ _ H) as (sim1 & Ht & E1 & E2 & E3 & E4 & Ef & Hreset).
  destruct (Tick_Ok _ _ _ _ Hwf Ht) as (_ & Hwf1 & Hb1 & _).
  assert (Hrange : 0 <= tm (sim m) < 4611686018427387904) by lia.
  destruct (Tick_timed _ _ _ _ Hrange Hwf Htmd Hrel Ht) as (Et & Htmd1 & Hrel1).
  destruct (Tick_drains _ _ _ _ Hrange Hwf Htmd Hrel Hset Hwork Ht) as (Hset1 & Hwork1).
  assert (Hfin : finish = true -> requestLimit <= tm (sim m')).
  { intros ->. symmetry in Ef. apply andb_true_iff in Ef as [_ Hf].
    apply Z.leb_le in Hf. rewrite E1. exact Hf. }
  assert (Hlast : lastTick <= tm (sim m') -> finish = true).
  { intros Hl. rewrite E1 in Hl. rewrite Ef. apply andb_true_iff. split.
    - apply Z.eqb_eq, total_Outstanding_idle.
      apply List.Forall_forall. intros s Hin. apply (work_idle (tm sim1)).
      + exact (proj1 (List.Forall_forall _ _) Hwf1 _ Hin).
      + pose proof (proj1 (List.Forall_forall _ _) Hwork1 _ Hin) as Hw.
        cbn beta in Hw. lia.
    - apply Z.leb_le. unfold lastTick in Hl. lia. }
  split; [|split; [congruence | split; [exact Hfin | exact Hlast]]].
  split; rewrite ?E1, ?E2, ?E3; try assumption.
  - lia.
  - change (requestLimit ÷ 2) with 2000000 in *.
    destruct (tm sim1 =? 2000000) eqn:Heq.
    + apply Z.eqb_eq in Heq. destruct Hreset as (_ & _ & ->). rewrite Hres.
      destruct (tm (sim m) <? 2000000) eqn:H1; [|apply Z.ltb_ge in H1; lia].
      destruct (tm sim1 <? 2000000) eqn:H2; [apply Z.ltb_lt in H2; lia | reflexivity].
    + apply Z.eqb_neq in Heq. destruct Hreset as (_ & _ & ->). rewrite Hres.
      destruct (tm (sim m) <? 2000000) eqn:H1; destruct (tm sim1 <? 2000000) eqn:H2;
        try reflexivity;
        try apply Z.ltb_lt in H1; try apply Z.ltb_ge in H1;
        try apply Z.ltb_lt in H2; try apply Z.ltb_ge in H2; lia.
  - intros Hlt1. change (requestLimit ÷ 2) with 2000000 in *.
    destruct (tm sim1 =? 2000000) eqn:Heq; [apply Z.eqb_eq in Heq; lia|].
    destruct Hreset as (Hst & _ & _).
    unfold balance in *. rewrite Hst, E2, E4, Hb1. apply Hbal. lia.
Qed.

Lemma main_loop_inv (pol : Policy) (inputs : list (list Draw)) (m m' : Main) (b : bool) :
  main_inv m -> tm (sim m) < lastTick ->
  main_loop pol inputs m = Ok (m', b) ->
  main_inv m' /\
  tm (sim m) <= tm (sim m') <= tm (sim m) + Z.of_nat (length inputs) /\
  tm (sim m') <= lastTick /\
  (if b then requestLimit <= tm (sim m')
   else tm (sim m') = tm (sim m) + Z.of_nat (length inputs) /\ tm (sim m') < lastTick).
Proof.
  revert m. induction inputs as [|draws rest IH]; intros m Hinv Hlt H;
    cbn [main_loop] in H.
  - injection H as <- <-. split; [assumption|]. cbn [length]. lia.
  - destruct (main_body pol draws m) as [[m1 finish]|p] eqn:Hb; cbn [bind] in H;
      [|discriminate].
    destruct (main_body_inv _ _ _ _ _ Hinv Hlt Hb) as (Hinv1 & Et & Hfin & Hlast).
    cbn [length]. rewrite Nat2Z.inj_succ.
    destruct finish.
    + injection H as <- <-. split; [assumption|]. split; [lia|]. split; [lia | auto].
    + assert (Hlt1 : tm (sim m1) < lastTick).
      { destruct (Z_lt_le_dec (tm (sim m1)) lastTick) as [Hl|Hl]; [exact Hl|].
        specialize (Hlast Hl). discriminate. }
      apply IH in H as (Hinv' & Hrange & Hle & Hb'); [|assumption|assumption].
      split; [assumption|]. split; [lia|]. split; [exact Hle|].
      destruct b; [assumption | lia].
Qed.

Lemma main_loop_Panic (pol : Policy) (inputs : list (list Draw)) (m : Main) (p : panic) :
  Forall wf_server (servers (sim m)) ->
  main_loop pol inputs m = Panic p -> p = IndexOutOfRange.
Proof.
  revert m. induction inputs as [|draws rest IH]; intros m Hwf H; cbn [main_loop] in H.
  - discriminate.
  - destruct (main_body pol draws m) as [[m1 finish]|p1] eqn:Hb; cbn [bind] in H.
    + destruct (main_body_Ok _ _ _ _ _ Hb) as (sim1 & Ht & _ & E2 & _).
      destruct (Tick_Ok _ _ _ _ Hwf Ht) as (_ & Hwf1 & _).
      destruct finish; [discriminate|].
      eapply IH; [|exact H]. rewrite E2. exact Hwf1.
    + injection H as <-. unfold main_body in Hb.
      destruct (Tick pol draws (sim m)) as [sim1|p2] eqn:Ht; cbn [bind] in Hb;
        [discriminate|].
      injection Hb as <-. eapply Tick_Panic; eauto.
Qed.

Lemma main_init_early : tm (sim main_init) < lastTick.
Proof. reflexivity. Qed.

(** Every run finishes: given draws for [lastTick] ticks or more, the loop
    stops at [finish], unless the policy indexes outside [servers]. *)
Lemma main_loop_finishes (pol : Policy) (inputs : list (list Draw)) (m : Main) (b : bool) :
  lastTick <= Z.of_nat (length inputs) ->
  main_loop pol inputs main_init = Ok (m, b) -> b = true.
Proof.
  intros Hlen H.
  apply main_loop_inv in H as (_ & _ & _ & Hb); [|exact main_init_inv|exact main_init_early].
  destruct b; [reflexivity|]. cbn [main_init sim init tm] in Hb. lia.
Qed.

Ltac wf_by_computation :=
  split; [reflexivity | reflexivity | vm_compute; discriminate].

(** * Properties of the specification *)

(** ** C9: dropping an arrival leaves the server as it was *)

(** C9. When the queue of a server is at capacity
    ([len(s.Queue) == maxQueue]), [AddRequest] returns the server
    unchanged: queue, slots, [SlotsUsed] and cache are all as before. *)
Theorem AddRequest_full_queue (r : Request) (s : Server) :
  Z.of_nat (length (Queue s)) = maxQueue -> AddRequest r s = s.
Proof.
  intros H. unfold AddRequest. rewrite H. reflexivity.
Qed.

Lemma AddRequest_full_queue_witness :
  Z.of_nat (length (Queue full_queue_server)) = maxQueue /\
  AddRequest request5 full_queue_server = full_queue_server.
Proof.
  split; [reflexivity|].
  apply (AddRequest_full_queue request5 full_queue_server). reflexivity.
Defined.

(** ** C6: [SlotsUsed] counts the full slots *)

(** C6.  The server invariant ([numSlots] slots, [SlotsUsed] the number of
    slots with [Full] set, at most [maxQueue] requests queued) gives
    [0 <= SlotsUsed <= numSlots].  It holds of
    a new server and holds again after [AddRequest], after [HandleRequest]
    (whenever it returns), after [CompleteRequest] of a full slot (the only
    way [Tick] calls it), and after a whole [Server.Tick], which always
    returns; so it holds of every server at every observation point of
    every run. *)
Theorem SlotsUsed_invariant :
  (forall s : Server, wf_server s ->
     SlotsUsed s = count_full (Slots s) /\ 0 <= SlotsUsed s <= numSlots) /\
  wf_server newServer /\
  (forall (r : Request) (s : Server), wf_server s -> wf_server (AddRequest r s)) /\
  (forall (tm : Z) (r : Request) (s s' : Server),
      wf_server s -> HandleRequest tm r s = Ok s' -> wf_server s') /\
  (forall (i : nat) (sl : Slot) (s s' : Server) (r : Request),
      wf_server s -> Slots s !! i = Some sl -> Full sl = true ->
      CompleteRequest i s = Ok (s', r) -> wf_server s') /\
  (forall (tm : Z) (s : Server), wf_server s ->
     exists (s' : Server) (done : list Request),
       Server_Tick tm s = Ok (s', done) /\ wf_server s') /\
  (forall (pol : Policy) (inputs : list (list Draw)) (m : Main) (b : bool),
      main_loop pol inputs main_init = Ok (m, b) ->
      Forall wf_server (servers (sim m))).
Proof.
  split; [intros s Hwf; split; [apply (wf_used _ Hwf) | apply wf_server_bounds, Hwf]|].
  split; [exact newServer_wf|].
  split; [intros r s Hwf; apply AddRequest_wf, Hwf|].
  split; [intros tm r s s' Hwf H; eapply HandleRequest_wf; eauto|].
  split.
  { intros i sl s s' r Hwf Hi Hf H.
    exact (proj1 (CompleteRequest_wf _ _ _ _ _ Hwf Hi Hf H)). }
  split.
  { intros tm s Hwf. destruct (Server_Tick_total tm s Hwf) as (s' & done & H & Hwf' & _).
    exists s', done. auto. }
  intros pol inputs m b H.
  apply main_loop_inv in H as (Hinv & _); [|exact main_init_inv|exact main_init_early].
  exact (mi_wf _ Hinv).
Qed.

Lemma SlotsUsed_invariant_witness :
  wf_server (busy_server 5 [] []) /\
  SlotsUsed (busy_server 5 [] []) = count_full (Slots (busy_server 5 [] [])) /\
  0 <= SlotsUsed (busy_server 5 [] []) <= numSlots /\
  wf_server (AddRequest request5 (busy_server 5 [] [])).
Proof.
  assert (Hwf : wf_server (busy_server 5 [] [])) by wf_by_computation.
  destruct SlotsUsed_invariant as (Hb & _ & Hadd & _).
  split; [exact Hwf|].
  split; [exact (proj1 (Hb _ Hwf))|].
  split; [exact (proj2 (Hb _ Hwf)) | exact (Hadd request5 _ Hwf)].
Defined.

(** ** C5: [FindSlot] never panics *)

(** C5. [FindSlot] is called only by [HandleRequest], itself called only
    by the admission loop of [Server.Tick] under [SlotsUsed < numSlots].
    Under the server invariant and that guard [FindSlot] returns the index
    of a slot that is not full; hence [Server.Tick] returns on every server
    satisfying the invariant, and no run of the main loop from the initial
    state ends in the panic [AllSlotsUsed], whatever the policy and the
    arrivals. *)
Theorem FindSlot_panic_unreachable :
  (forall s : Server, wf_server s -> SlotsUsed s < numSlots ->
     exists (i : nat) (sl : Slot),
       FindSlot s = Ok i /\ Slots s !! i = Some sl /\ Full sl = false) /\
  (forall (tm : Z) (s : Server), wf_server s ->
     exists (s' : Server) (done : list Request),
       Server_Tick tm s = Ok (s', done) /\ wf_server s') /\
  (forall (pol : Policy) (inputs : list (list Draw)),
     main_loop pol inputs main_init <> Panic AllSlotsUsed).
Proof.
  split; [exact FindSlot_free|]. split.
  - intros tm s Hwf. destruct (Server_Tick_total tm s Hwf) as (s' & done & H & Hwf' & _).
    exists s', done. auto.
  - intros pol inputs H.
    apply main_loop_Panic in H; [discriminate|].
    exact (mi_wf _ main_init_inv).
Qed.

Lemma FindSlot_panic_unreachable_witness :
  wf_server newServer /\ SlotsUsed newServer < numSlots /\
  exists (i : nat) (sl : Slot),
    FindSlot newServer = Ok i /\ Slots newServer !! i = Some sl /\ Full sl = false.
Proof.
  split; [exact newServer_wf|]. split; [reflexivity|].
  apply (proj1 FindSlot_panic_unreachable newServer newServer_wf). reflexivity.
Defined.

(** ** C1: the surcharge reads [SlotsUsed] before the admission *)

Lemma lru_Get_hit (k : Z) (c : lru_Cache) : snd (lru_Get k c) = lru_hit k c.
Proof. unfold lru_Get. destruct (lru_hit k c); reflexivity. Qed.

(** C1, as stated, fails.  With four of the eight slots in use, a miss
    admitted at tick 7 leaves five slots in use, more than half, and yet
    completes at 107 = 7 + 100, not at the 119 of that formula.  And two
    admissions of one tick, a miss at five slots in use and then a hit at
    six, get the surcharges 12 and then 2. *)
Lemma post_admission_surcharge_counterexample :
  (exists (s' : Server) (sl : Slot),
      HandleRequest 7 request5 (busy_server 4 [] []) = Ok s' /\
      Slots s' !! 4%nat = Some sl /\ Full sl = true /\
      SlotsUsed s' = 5 /\ Accepted (Req sl) = 7 /\ Cached (Req sl) = false /\
      Completed (Req sl) = 107 /\
      Completed (Req sl)
      <> spec_completion (Accepted (Req sl)) uncachedHandleTime (SlotsUsed s')) /\
  (exists (s' : Server) (sl1 sl2 : Slot),
      admitLoop 7 [request5; request9] (busy_server 5 [9] [request5; request9]) = Ok s' /\
      Slots s' !! 5%nat = Some sl1 /\ Slots s' !! 6%nat = Some sl2 /\
      Cached (Req sl1) = false /\ Cached (Req sl2) = true /\
      Completed (Req sl1) - Accepted (Req sl1) - uncachedHandleTime = 12 /\
      Completed (Req sl2) - Accepted (Req sl2) - cachedHandleTime = 2).
Proof.
  split.
  - eexists. eexists. split; [vm_compute; reflexivity|].
    split; [reflexivity|]. repeat (split; [reflexivity|]). vm_compute. discriminate.
  - eexists. eexists. eexists. split; [vm_compute; reflexivity|].
    split; [reflexivity|]. split; [reflexivity|]. repeat (split; [reflexivity|]).
    reflexivity.
Qed.

(** C1, amended.  When [HandleRequest] admits a request at tick [tm] on a
    server with a free slot, with [b] the base service time
    ([cachedHandleTime] on a hit, [uncachedHandleTime] on a miss) and [u]
    the value of [SlotsUsed] before this admission, the slot it fills holds
    the request with [Accepted = tm] and
    [Completed = tm + b + (b/numSlots)*(u - numSlots/2)] if [u > numSlots/2],
    [tm + b] otherwise.  [SlotsUsed] is [u + 1] afterwards, so the next
    admission of the loop reads a strictly larger value, and the surcharge
    does not decrease when neither the base time nor the slots in use
    do. *)
Theorem HandleRequest_completion (tm : Z) (r : Request) (s : Server) :
  wf_server s -> SlotsUsed s < numSlots -> tick_ok tm ->
  let b := baseTime (lru_hit (Item r) (Cache s)) in
  let u := SlotsUsed s in
  exists (i : nat) (s' : Server) (sl : Slot),
    FindSlot s = Ok i /\ HandleRequest tm r s = Ok s' /\
    Slots s' !! i = Some sl /\ Full sl = true /\
    Accepted (Req sl) = tm /\
    Cached (Req sl) = (lru_hit (Item r) (Cache s) || Cached r) /\
    Completed (Req sl)
    = (if numSlots ÷ 2 <? u then tm + b + (b ÷ numSlots) * (u - numSlots ÷ 2)
       else tm + b) /\
    Completed (Req sl) = tm + b + surcharge b u /\
    SlotsUsed s' = u + 1 /\
    (forall q : list Request,
        admitLoop tm (r :: q) s
        = admitLoop tm q {| Queue := q; Slots := Slots s'; SlotsUsed := SlotsUsed s';
                        Cache := Cache s' |}) /\
    (forall b' u' : Z, b <= b' -> u <= u' -> surcharge b u <= surcharge b' u').
Proof.
  intros Hwf Hlt Htm b u.
  destruct (FindSlot_free s Hwf Hlt) as (i & sl0 & Hf & Hi & Hn).
  destruct (HandleRequest tm r s) as [s'|p] eqn:Hh.
  2:{ unfold HandleRequest in Hh. rewrite Hf in Hh. cbn [bind] in Hh.
      destruct (lru_Get _ _). discriminate. }
  destruct (HandleRequest_Ok _ _ _ _ Hh) as (i' & sl' & Hf' & _ & _ & Hs').
  rewrite Hf in Hf'. injection Hf' as <-.
  rewrite lru_Get_hit in Hs'.
  pose proof (wf_server_bounds _ Hwf) as Hb.
  assert (Hcompl : add64 tm (handleTime (lru_hit (Item r) (Cache s)) (SlotsUsed s))
                   = tm + b + surcharge b u).
  { pose proof (handleTime_bounds (lru_hit (Item r) (Cache s)) _ Hb) as Hh'.
    unfold tick_ok, cachedHandleTime in *.
    rewrite add64_small by lia. rewrite handleTime_exact by exact Hb.
    subst b u. lia. }
  eexists i, s', _. split; [exact Hf|]. split; [reflexivity|].
  split; [rewrite Hs'; cbn [Slots]; apply list_lookup_insert_eq;
          eapply lookup_lt_Some; exact Hi|].
  cbn [Full Req Accepted Cached Completed].
  split; [reflexivity|]. split; [reflexivity|].
  split; [destruct (lru_hit (Item r) (Cache s)); reflexivity|].
  split; [rewrite Hcompl; unfold surcharge; destruct (numSlots ÷ 2 <? u); lia|].
  split; [exact Hcompl|].
  split; [rewrite Hs'; cbn [SlotsUsed]; unfold numSlots in *; apply add64_small; lia|].
  split.
  - intros q. cbn [admitLoop]. apply Z.ltb_lt in Hlt. rewrite Hlt, Hh. reflexivity.
  - intros b' u' Hb' Hu'. apply surcharge_mono; [|exact Hu'].
    split; [|exact Hb']. subst b. destruct (lru_hit _ _); discriminate.
Qed.

Lemma HandleRequest_completion_witness :
  exists (s' : Server) (sl : Slot),
    HandleRequest 7 request5 (busy_server 5 [] []) = Ok s' /\
    Slots s' !! 5%nat = Some sl /\
    Completed (Req sl) = 7 + 100 + 12 * (5 - 4) /\ SlotsUsed s' = 5 + 1.
Proof.
  assert (Hwf : wf_server (busy_server 5 [] [])) by wf_by_computation.
  assert (Hlt : SlotsUsed (busy_server 5 [] []) < numSlots) by reflexivity.
  assert (Htm : tick_ok 7) by (unfold tick_ok; lia).
  destruct (HandleRequest_completion 7 request5 (busy_server 5 [] []) Hwf Hlt Htm)
    as (i & s' & sl & Hf & Hh & Hsl & _ & _ & _ & Hc & _ & Hu & _).
  vm_compute in Hf. injection Hf as <-.
  exists s', sl. split; [exact Hh|]. split; [exact Hsl|].
  split; [exact Hc | exact Hu].
Defined.

(** ** C2: the lookup at admission refreshes the recency of a hit *)

(** C2, as stated, fails.  [HandleRequest] looks the key up with
    [Cache.Get]; on a server caching the keys 1 and 2, 1 the more recent,
    admitting a request for key 2 is a hit and leaves the cache with 2 in
    front of 1.  The earlier revision does the same. *)
Lemma admission_lookup_counterexample :
  ll (Cache (busy_server 0 [1; 2] [])) = [1; 2] /\
  (exists s' : Server,
      HandleRequest 7 request2 (busy_server 0 [1; 2] []) = Ok s' /\
      ll (Cache s') = [2; 1] /\
      Cache s' <> Cache (busy_server 0 [1; 2] [])) /\
  (exists s' : Server,
      HandleRequest_basic 7 request2 (busy_server 0 [1; 2] []) = Ok s' /\
      ll (Cache s') = [2; 1] /\
      Cache s' <> Cache (busy_server 0 [1; 2] [])).
Proof.
  split; [reflexivity|]. split.
  - eexists. split; [vm_compute; reflexivity|]. split; [reflexivity | discriminate].
  - eexists. split; [vm_compute; reflexivity|]. split; [reflexivity | discriminate].
Qed.

Lemma lru_hit_In (k : Z) (c : lru_Cache) : lru_hit k c = true <-> In k (ll c).
Proof.
  unfold lru_hit. rewrite existsb_exists. split.
  - intros (x & Hx & He). apply Z.eqb_eq in He. subst. exact Hx.
  - intros H. exists k. split; [exact H | apply Z.eqb_refl].
Qed.

Lemma MoveToFront_In (k x : Z) (l : list Z) :
  In k l -> In x (MoveToFront k l) <-> In x l.
Proof.
  intros Hk. unfold MoveToFront. cbn [In]. rewrite filter_In. split.
  - intros [<- | [H _]]; assumption.
  - intros H. destruct (Z.eq_dec k x) as [->|Hne]; [left; reflexivity|].
    right. split; [exact H|]. apply negb_true_iff, Z.eqb_neq. congruence.
Qed.

(** What either revision of [HandleRequest] does with the cache and the
    [Cached] flag. *)
Lemma admission_cache (tm : Z) (r : Request) (s s' : Server) :
  HandleRequest tm r s = Ok s' \/ HandleRequest_basic tm r s = Ok s' ->
  Cache s' = fst (lru_Get (Item r) (Cache s)) /\
  exists (i : nat) (sl : Slot),
    FindSlot s = Ok i /\ Slots s' !! i = Some sl /\
    Cached (Req sl) = (lru_hit (Item r) (Cache s) || Cached r).
Proof.
  intros [H|H].
  - destruct (HandleRequest_Ok _ _ _ _ H) as (i & sl0 & Hf & Hi & _ & ->).
    cbn [Cache Slots]. split; [reflexivity|].
    eexists i, _. split; [exact Hf|].
    split; [apply list_lookup_insert_eq; eapply lookup_lt_Some; exact Hi|].
    cbn [Req Cached]. rewrite lru_Get_hit. destruct (lru_hit _ _); reflexivity.
  - unfold HandleRequest_basic, FindSlot in H.
    destruct (find_free 0 (Slots s)) as [j|p] eqn:Hf; cbn [bind] in H; [|discriminate].
    destruct (find_free_Ok _ _ _ Hf) as (i & sl0 & -> & Hi & _).
    pose proof (lru_Get_hit (Item r) (Cache s)) as Hh.
    destruct (lru_Get (Item r) (Cache s)) as [c hit]. cbn [snd] in Hh. subst hit.
    injection H as <-. cbn [Cache Slots fst]. split; [reflexivity|].
    eexists i, _. split; [exact Hf|].
    split; [apply list_lookup_insert_eq; eapply lookup_lt_Some; exact Hi|].
    cbn [Req Cached]. destruct (lru_hit _ _); reflexivity.
Qed.

(** C2, amended.  The lookup at admission, in either revision of
    [HandleRequest], tells whether the key is present, and the request is
    marked [Cached] on a hit.  It never changes which keys are cached nor
    [MaxEntries]; on a miss the cache is left exactly as it was; on a hit
    the key moves to the front of the recency order, the other keys keeping
    their order. *)
Theorem admission_lookup (tm : Z) (r : Request) (s s' : Server) :
  HandleRequest tm r s = Ok s' \/ HandleRequest_basic tm r s = Ok s' ->
  let hit := lru_hit (Item r) (Cache s) in
  (hit = true <-> In (Item r) (ll (Cache s))) /\
  (exists (i : nat) (sl : Slot),
      FindSlot s = Ok i /\ Slots s' !! i = Some sl /\
      Cached (Req sl) = (hit || Cached r)) /\
  MaxEntries (Cache s') = MaxEntries (Cache s) /\
  (forall k : Z, In k (ll (Cache s')) <-> In k (ll (Cache s))) /\
  (hit = false -> Cache s' = Cache s) /\
  (hit = true ->
   ll (Cache s')
   = Item r :: List.filter (fun k => negb (k =? Item r)) (ll (Cache s))).
Proof.
  intros H hit.
  destruct (admission_cache _ _ _ _ H) as (-> & Hslot).
  split; [apply lru_hit_In|]. split; [exact Hslot|].
  unfold lru_Get. fold hit.
  destruct hit eqn:Hhit; cbn [fst MaxEntries ll].
  - split; [reflexivity|]. split.
    + intros k. apply MoveToFront_In. apply lru_hit_In. exact Hhit.
    + split; [discriminate | reflexivity].
  - split; [reflexivity|]. split; [reflexivity|].
    split; [reflexivity | discriminate].
Qed.

Lemma admission_lookup_witness :
  exists s' : Server,
    HandleRequest 7 request2 (busy_server 0 [1; 2; 3] []) = Ok s' /\
    ll (Cache s') = [2; 1; 3].
Proof.
  eexists. split; [vm_compute; reflexivity|].
  refine (proj2 (proj2 (proj2 (proj2 (proj2
    (admission_lookup 7 request2 (busy_server 0 [1; 2; 3] []) _ (or_introl _)))))) _).
  - vm_compute. reflexivity.
  - reflexivity.
Defined.

(** ** C4: the bias of [modchoose2] *)

Lemma modchoose2_candidates (k : Z) :
  0 <= k <= 72057594037927936 ->
  let first := k mod numServers in
  let second := (first * k + 1) mod numServers in
  Z.rem k numServers = first /\
  Z.rem (add64 (mul64 first k) 1) numServers = second /\
  0 <= first < numServers /\ 0 <= second < numServers /\ first <> second.
Proof.
  intros Hk first second. unfold numServers in *.
  assert (Hf : 0 <= first < 100) by (apply Z.mod_pos_bound; lia).
  assert (Hs : 0 <= second < 100) by (apply Z.mod_pos_bound; lia).
  assert (Hfk : 0 <= first * k <= 99 * 72057594037927936) by nia.
  split; [apply Z.rem_mod_nonneg; lia|].
  split.
  { rewrite mul64_small by lia. rewrite add64_small by lia.
    apply Z.rem_mod_nonneg; lia. }
  split; [exact Hf|]. split; [exact Hs|].
  intros Heq.
  pose proof (Z.div_mod k 100 ltac:(lia)) as Ek. fold first in Ek.
  pose proof (Z.div_mod (first * k + 1) 100 ltac:(lia)) as Es.
  fold second in Es. rewrite <- Heq in Es.
  set (q := k / 100) in *. set (q2 := (first * k + 1) / 100) in *.
  clearbody q q2. clear Heq second Hs Hfk.
  destruct (Z.Even_or_Odd first) as [[a Ha]|[a Ha]]; rewrite Ha in *; nia.
Qed.

(** C4.  On the hundred servers of the program, each satisfying the server
    invariant, and for a key in the range the key generator produces,
    [modchoose2] takes [first = key mod numServers] and
    [second = (first*key + 1) mod numServers], which always differ, and
    returns [second] if and only if
    [Outstanding(second) + 16 < Outstanding(first)]; otherwise it returns
    [first].  In particular when the margin is exactly met,
    [Outstanding(first) = Outstanding(second) + 16], it returns [first]. *)
Theorem modchoose2_bias (ss : list Server) (r : Request) :
  Z.of_nat (length ss) = numServers ->
  Forall wf_server ss ->
  0 <= Item r <= 72057594037927936 ->
  let first := Item r mod numServers in
  let second := (first * Item r + 1) mod numServers in
  exists s1 s2 : Server,
    ss !! Z.to_nat first = Some s1 /\ ss !! Z.to_nat second = Some s2 /\
    first <> second /\
    modchoose2 ss r = Ok (if Outstanding s2 + 16 <? Outstanding s1 then second else first) /\
    (modchoose2 ss r = Ok second <-> Outstanding s2 + 16 < Outstanding s1) /\
    (Outstanding s1 = Outstanding s2 + 16 -> modchoose2 ss r = Ok first).
Proof.
  intros Hlen Hwf Hk first second.
  destruct (modchoose2_candidates (Item r) Hk) as (E1 & E2 & Hf & Hs & Hne).
  fold first in E1, E2, Hf, Hne. fold second in E2, Hs, Hne.
  change (0 <= second < numServers) in Hs.
  assert (Hf' : (Z.to_nat first < length ss)%nat) by (clearbody first second; lia).
  assert (Hs' : (Z.to_nat second < length ss)%nat) by (clearbody first second; lia).
  destruct (lookup_lt_is_Some_2 ss _ Hf') as [s1 H1].
  destruct (lookup_lt_is_Some_2 ss _ Hs') as [s2 H2].
  exists s1, s2.
  pose proof (proj1 (Forall_lookup _ _) Hwf _ _ H1) as Hwf1.
  pose proof (proj1 (Forall_lookup _ _) Hwf _ _ H2) as Hwf2.
  assert (Hm : modchoose2 ss r
               = Ok (if Outstanding s2 + 16 <? Outstanding s1 then second else first)).
  { unfold modchoose2. rewrite E1, E2. unfold index.
    destruct (second <? 0) eqn:Hs0; [apply Z.ltb_lt in Hs0; lia|].
    destruct (first <? 0) eqn:Hf0; [apply Z.ltb_lt in Hf0; lia|].
    rewrite H2, H1. cbn [bind].
    assert (Ea : add64 (Outstanding s2) 16 = Outstanding s2 + 16).
    { rewrite (Outstanding_wf _ Hwf2). unfold inflight.
      pose proof (wf_server_bounds _ Hwf2) as Hb. destruct Hwf2 as [_ _ Hq].
      unfold numSlots, maxQueue in *. apply add64_small. lia. }
    rewrite Ea. destruct (Outstanding s2 + 16 <? Outstanding s1); reflexivity. }
  split; [exact H1|]. split; [exact H2|]. split; [exact Hne|]. split; [exact Hm|].
  rewrite Hm. split.
  - destruct (Outstanding s2 + 16 <? Outstanding s1) eqn:Hlt.
    + split; [intros _; apply Z.ltb_lt; exact Hlt | reflexivity].
    + apply Z.ltb_ge in Hlt. split; [intros H; injection H as H; lia | lia].
  - intros Heq. destruct (Outstanding s2 + 16 <? Outstanding s1) eqn:Hlt;
      [apply Z.ltb_lt in Hlt; lia | reflexivity].
Qed.

Lemma modchoose2_bias_witness :
  Outstanding (busy_server 0 [] (replicate 16 request5)) = Outstanding newServer + 16 /\
  modchoose2 margin_servers request0 = Ok 0.
Proof.
  split; [reflexivity|].
  assert (Hlen : Z.of_nat (length margin_servers) = numServers) by reflexivity.
  assert (Hwf : Forall wf_server margin_servers).
  { constructor; [wf_by_computation|]. apply Forall_replicate. wf_by_computation. }
  assert (Hk : 0 <= Item request0 <= 72057594037927936) by (simpl; lia).
  destruct (modchoose2_bias margin_servers request0 Hlen Hwf Hk)
    as (s1 & s2 & H1 & H2 & _ & _ & _ & Hexact).
  vm_compute in H1. injection H1 as <-.
  vm_compute in H2. injection H2 as <-.
  apply Hexact. reflexivity.
Defined.

(** ** C3: conservation of requests *)




(** ** C7: monotonic time stamps *)

(** C7.  In every run of the main loop from the initial state, every
    request released as completed and handed to [RecordStats] has
    [Sent <= Accepted <= Completed]. *)
Theorem released_stamps_ordered (pol : Policy) (inputs : list (list Draw))
        (m : Main) (b : bool) :
  main_loop pol inputs main_init = Ok (m, b) ->
  forall (t : Z) (r : Request),
    In (t, r) (released (sim m)) -> Sent r <= Accepted r <= Completed r.
Proof.
  intros H t r Hin.
  apply main_loop_inv in H as (Hinv & _); [|exact main_init_inv|exact main_init_early].
  pose proof (proj1 (List.Forall_forall _ _) (mi_released _ Hinv) _ Hin) as Hr.
  destruct Hr as [(Hs & _ & Hc & _) _]. cbn [fst snd] in *.
  unfold cachedHandleTime in Hc. lia.
Qed.

Lemma released_stamps_ordered_witness :
  main_loop ModuloHash single_inputs main_init = Ok (single_final, false) /\
  In (101, completed5) (released (sim single_final)) /\
  Sent completed5 <= Accepted completed5 <= Completed completed5.
Proof.
  assert (E : main_loop ModuloHash single_inputs main_init = Ok (single_final, false))
    by (vm_compute; reflexivity).
  assert (Hin : In (101, completed5) (released (sim single_final)))
    by (vm_compute; left; reflexivity).
  split; [exact E|]. split; [exact Hin|].
  exact (released_stamps_ordered ModuloHash single_inputs single_final false E
           101 completed5 Hin).
Defined.

(** ** C10: no release in the tick of admission *)



(** ** C8: the mid-run reset *)

(** C8.  An iteration of the main loop zeroes the five counters and the
    elapsed-tick base [tmx] exactly when its tick is [requestLimit/2];
    otherwise it leaves the counters as [Tick] left them and adds one to
    [tmx].  In a run from the initial state the tick is the number of
    iterations done and never exceeds [lastTick], so the reset has not run
    while the tick is below [requestLimit/2] and has run exactly once from
    then on; a run that reaches [finish] has passed tick [requestLimit] and
    so has reset exactly once. *)
Theorem midrun_reset_once (pol : Policy) (inputs : list (list Draw)) (m : Main) (b : bool) :
  main_loop pol inputs main_init = Ok (m, b) ->
  (forall (draws : list Draw) (m0 m1 : Main) (finish : bool),
      main_body pol draws m0 = Ok (m1, finish) ->
      if tm (sim m1) =? requestLimit ÷ 2
      then stats (sim m1) = zeroStats /\ tmx m1 = 0 /\ resets m1 = resets m0 + 1
      else (exists sim1 : Sim,
               Tick pol draws (sim m0) = Ok sim1 /\ stats (sim m1) = stats sim1) /\
           tmx m1 = tmx m0 + 1 /\ resets m1 = resets m0) /\
  resets m = (if tm (sim m) <? requestLimit ÷ 2 then 0 else 1) /\
  0 <= tm (sim m) <= Z.of_nat (length inputs) /\
  (if b then requestLimit <= tm (sim m) /\ resets m = 1
   else tm (sim m) = Z.of_nat (length inputs)).
Proof.
  intros H. split.
  { intros draws m0 m1 finish Hb.
    destruct (main_body_Ok _ _ _ _ _ Hb) as (sim1 & Ht & E1 & _ & _ & _ & _ & Hreset).
    rewrite E1. destruct (tm sim1 =? requestLimit ÷ 2); [exact Hreset|].
    destruct Hreset as (Hs & Hx & Hr). split; [exists sim1; auto | auto]. }
  apply main_loop_inv in H as (Hinv & Hrange & _ & Hb);
    [|exact main_init_inv|exact main_init_early].
  cbn [main_init sim init tm] in Hrange, Hb.
  pose proof (mi_resets _ Hinv) as Hres.
  split; [exact Hres|]. split; [lia|].
  destruct b; [|lia]. split; [exact Hb|]. rewrite Hres.
  change (requestLimit ÷ 2) with 2000000. unfold requestLimit in Hb.
  destruct (tm (sim m) <? 2000000) eqn:Hlt; [apply Z.ltb_lt in Hlt; lia | reflexivity].
Qed.

Lemma midrun_reset_once_witness :
  main_loop ModuloHash single_inputs main_init = Ok (single_final, false) /\
  tm (sim single_final) = 101 /\ resets single_final = 0 /\
  exists m1 : Main,
    main_body ModuloHash [] before_reset = Ok (m1, false) /\
    tm (sim m1) = requestLimit ÷ 2 /\
    stats (sim m1) = zeroStats /\ tmx m1 = 0 /\ resets m1 = resets before_reset + 1.
Proof.
  assert (E : main_loop ModuloHash single_inputs main_init = Ok (single_final, false))
    by (vm_compute; reflexivity).
  destruct (midrun_reset_once ModuloHash single_inputs single_final false E)
    as (Hbody & Hres & _ & Htm).
  split; [exact E|]. split; [exact Htm|]. split; [exact Hres|].
  eexists. split; [vm_compute; reflexivity|]. split; [reflexivity|].
  match goal with
  | |- stats (sim ?m1) = _ /\ _ =>
      assert (Hb : main_body ModuloHash [] before_reset = Ok (m1, false))
        by (vm_compute; reflexivity);
      exact (Hbody [] before_reset m1 false Hb)
  end.
Defined.

(** * Further properties of the code *)

(** ** [FindSlot], [HandleRequest], [CompleteRequest] *)

Lemma find_free_first (slots : list Slot) (k : nat) :
  match find_free k slots with
  | Ok j =>
      exists (i : nat) (sl : Slot),
        j = (k + i)%nat /\ slots !! i = Some sl /\ Full sl = false /\
        all_full (take i slots)
  | Panic p => p = AllSlotsUsed /\ all_full slots
  end.
Proof.
  revert k. induction slots as [|sl rest IH]; intros k; cbn [find_free].
  - split; [reflexivity | constructor].
  - destruct (Full sl) eqn:Hf; cbn [negb].
    + specialize (IH (S k)). destruct (find_free (S k) rest) as [j|p].
      * destruct IH as (i & sl' & -> & Hi & Hn & Hall).
        exists (S i), sl'. split; [lia|]. split; [exact Hi|]. split; [exact Hn|].
        cbn [take]. constructor; assumption.
      * destruct IH as [-> Hall]. split; [reflexivity|]. constructor; assumption.
    + exists 0%nat, sl. split; [lia|]. split; [reflexivity|]. split; [exact Hf|].
      constructor.
Qed.

Lemma FindSlot_scan (s : Server) :
  match FindSlot s with
  | Ok i =>
      (exists sl : Slot, Slots s !! i = Some sl /\ Full sl = false) /\
      all_full (take i (Slots s))
  | Panic p => p = AllSlotsUsed /\ all_full (Slots s)
  end.
Proof.
  unfold FindSlot. pose proof (find_free_first (Slots s) 0) as H.
  destruct (find_free 0 (Slots s)) as [j|p].
  - destruct H as (i & sl & -> & Hi & Hn & Hall). cbn [Nat.add].
    split; [exists sl; auto | exact Hall].
  - exact H.
Qed.

(** X1.  [FindSlot] returns the lowest index of a slot that is not full:
    the slot at the index returned is free and every slot before it is
    full.  It panics, with "All slots used", exactly when every slot is
    full. *)
Theorem FindSlot_first_free (s : Server) :
  match FindSlot s with
  | Ok i =>
      (exists sl : Slot, Slots s !! i = Some sl /\ Full sl = false) /\
      (forall (j : nat) (sl : Slot),
          (j < i)%nat -> Slots s !! j = Some sl -> Full sl = true)
  | Panic p =>
      p = AllSlotsUsed /\
      (forall (j : nat) (sl : Slot), Slots s !! j = Some sl -> Full sl = true)
  end.
Proof.
  pose proof (FindSlot_scan s) as H.
  destruct (FindSlot s) as [i|p].
  - destruct H as [Hfree Hall]. split; [exact Hfree|].
    intros j sl' Hj Hsl.
    apply (proj1 (Forall_lookup _ _) Hall j sl').
    rewrite lookup_take_lt by exact Hj. exact Hsl.
  - destruct H as [-> Hall]. split; [reflexivity|].
    intros j sl Hsl. exact (proj1 (Forall_lookup _ _) Hall j sl Hsl).
Qed.

(** X2.  [HandleRequest] either panics, with "All slots used" and only
    when every slot is full, or fills the slot [FindSlot] returns and
    nothing else: the queue and every other slot are as before, one more
    slot is full, and the request stored keeps its [Item] and [Sent] and is
    stamped [Accepted = tm]. *)
Theorem HandleRequest_frame (tm : Z) (r : Request) (s : Server) :
  match HandleRequest tm r s with
  | Ok s' =>
      exists (i : nat) (sl : Slot),
        FindSlot s = Ok i /\ Slots s' !! i = Some sl /\ Full sl = true /\
        Item (Req sl) = Item r /\ Sent (Req sl) = Sent r /\ Accepted (Req sl) = tm /\
        Queue s' = Queue s /\ length (Slots s') = length (Slots s) /\
        (forall j : nat, j <> i -> Slots s' !! j = Slots s !! j) /\
        count_full (Slots s') = count_full (Slots s) + 1
  | Panic p =>
      p = AllSlotsUsed /\
      (forall (j : nat) (sl : Slot), Slots s !! j = Some sl -> Full sl = true)
  end.
Proof.
  destruct (HandleRequest tm r s) as [s'|p] eqn:H.
  - destruct (HandleRequest_Ok _ _ _ _ H) as (i & sl0 & Hf & Hi & Hn & ->).
    eexists i, _. split; [exact Hf|]. cbn [Slots Queue].
    split; [apply list_lookup_insert_eq; eapply lookup_lt_Some; exact Hi|].
    cbn [Full Req Item Sent Accepted]. repeat (split; [reflexivity|]).
    split; [apply length_insert|]. split.
    + intros j Hj. apply list_lookup_insert_ne. congruence.
    + rewrite (count_full_insert _ _ _ _ Hi), Hn. cbn [Full b2z]. lia.
  - unfold HandleRequest in H. pose proof (FindSlot_scan s) as Hfs.
    destruct (FindSlot s) as [i|p0]; cbn [bind] in H.
    + destruct (lru_Get (Item r) (Cache s)). discriminate.
    + injection H as <-. destruct Hfs as [-> Hall]. split; [reflexivity|].
      intros j sl Hsl. exact (proj1 (Forall_lookup _ _) Hall j sl Hsl).
Qed.

(** X3.  [CompleteRequest(i)] panics, with an index out of range, exactly
    when [i] is not the index of a slot.  Otherwise it returns the request
    stored in slot [i], clears the [Full] flag of that slot (the request
    stays stored in it), and leaves the queue and every other slot as they
    were; when the slot was full, one slot fewer is full. *)
Theorem CompleteRequest_frame (i : nat) (s : Server) :
  match CompleteRequest i s with
  | Ok (s', r) =>
      exists sl : Slot,
        Slots s !! i = Some sl /\ r = Req sl /\
        Slots s' !! i = Some {| Full := false; Req := r |} /\
        (forall j : nat, j <> i -> Slots s' !! j = Slots s !! j) /\
        Queue s' = Queue s /\ length (Slots s') = length (Slots s) /\
        count_full (Slots s') = count_full (Slots s) - b2z (Full sl)
  | Panic p => p = IndexOutOfRange /\ (length (Slots s) <= i)%nat
  end.
Proof.
  unfold CompleteRequest. destruct (Slots s !! i) as [sl|] eqn:Hi.
  - exists sl. split; [reflexivity|]. split; [reflexivity|]. cbn [Slots Queue].
    split; [apply list_lookup_insert_eq; eapply lookup_lt_Some; exact Hi|].
    split; [intros j Hj; apply list_lookup_insert_ne; congruence|].
    split; [reflexivity|]. split; [apply length_insert|].
    rewrite (count_full_insert _ _ _ _ Hi). cbn [Full b2z]. lia.
  - split; [reflexivity|]. apply lookup_ge_None. exact Hi.
Qed.

(** ** The cache between completion and admission *)

Lemma lru_Add_hit (k : Z) (c : lru_Cache) :
  0 <= MaxEntries c -> lru_hit k (lru_Add k c) = true.
Proof.
  intros Hm. unfold lru_Add.
  destruct (lru_hit k c) eqn:Hh.
  - unfold lru_hit, MoveToFront. cbn [ll existsb]. rewrite Z.eqb_refl. reflexivity.
  - cbn [MaxEntries ll].
    destruct (negb (MaxEntries c =? 0) && (MaxEntries c <? Z.of_nat (length (k :: ll c))))
      eqn:He.
    + apply andb_true_iff in He as [Hz Hl]. apply negb_true_iff, Z.eqb_neq in Hz.
      apply Z.ltb_lt in Hl. unfold RemoveOldest, lru_hit. cbn [MaxEntries ll].
      destruct (ll c) as [|x l]; [cbn [length] in Hl; lia|].
      cbn [removelast existsb]. rewrite Z.eqb_refl. reflexivity.
    + unfold lru_hit. cbn [ll existsb]. rewrite Z.eqb_refl. reflexivity.
Qed.

(** X4.  Completion then admission is a hit.  When [CompleteRequest]
    releases a request from a server whose cache has a non-negative
    [MaxEntries], a request for the same item admitted next on that server
    is marked [Cached] and gets the cached service time. *)
Theorem completion_then_admission_hits (i : nat) (s s1 : Server) (r : Request) :
  0 <= MaxEntries (Cache s) ->
  CompleteRequest i s = Ok (s1, r) ->
  lru_hit (Item r) (Cache s1) = true /\
  forall (tm : Z) (r2 : Request) (s2 : Server),
    Item r2 = Item r -> HandleRequest tm r2 s1 = Ok s2 ->
    exists (i2 : nat) (sl2 : Slot),
      FindSlot s1 = Ok i2 /\ Slots s2 !! i2 = Some sl2 /\
      Cached (Req sl2) = true /\
      Completed (Req sl2) = add64 tm (handleTime true (SlotsUsed s1)).
Proof.
  intros Hm H. unfold CompleteRequest in H.
  destruct (Slots s !! i) as [sl|] eqn:Hi; [|discriminate].
  injection H as <- <-. cbn [Cache SlotsUsed].
  pose proof (lru_Add_hit (Item (Req sl)) (Cache s) Hm) as Hhit.
  split; [exact Hhit|].
  intros tm r2 s2 Hitem H2.
  destruct (HandleRequest_Ok _ _ _ _ H2) as (i2 & sl0 & Hf & Hi2 & _ & ->).
  cbn [Cache SlotsUsed Slots] in *.
  rewrite lru_Get_hit, Hitem, Hhit.
  eexists i2, _. split; [exact Hf|].
  split; [apply list_lookup_insert_eq; eapply lookup_lt_Some; exact Hi2|].
  cbn [Req Cached Completed]. split; reflexivity.
Qed.

Lemma completion_then_admission_hits_witness :
  exists (s1 s2 : Server) (sl2 : Slot),
    CompleteRequest 0 (busy_server 1 [] []) = Ok (s1, Req busySlot) /\
    HandleRequest 200 (Req busySlot) s1 = Ok s2 /\
    Slots s2 !! 0%nat = Some sl2 /\ Cached (Req sl2) = true /\ Completed (Req sl2) = 210.
Proof.
  assert (Hm : 0 <= MaxEntries (Cache (busy_server 1 [] []))) by (vm_compute; discriminate).
  eexists. eexists.
  match goal with
  | |- exists sl2, ?C = Ok (?s1, _) /\ _ =>
      assert (Hc : CompleteRequest 0 (busy_server 1 [] []) = Ok (s1, Req busySlot))
        by (vm_compute; reflexivity)
  end.
  match goal with
  | |- exists sl2, _ /\ ?H = Ok ?s2 /\ _ =>
      assert (Hh : H = Ok s2) by (vm_compute; reflexivity)
  end.
  destruct (proj2 (completion_then_admission_hits 0 _ _ _ Hm Hc) 200 (Req busySlot) _
                  eq_refl Hh) as (i2 & sl2 & Hf & Hsl & Hcached & Hcompl).
  vm_compute in Hf. injection Hf as <-.
  exists sl2. split; [exact Hc|]. split; [exact Hh|]. split; [exact Hsl|].
  split; [exact Hcached|]. rewrite Hcompl. reflexivity.
Defined.

(** ** The two revisions of [HandleRequest] *)

(** X5.  With at most half of the slots in use the load surcharge does
    not apply, and [HandleRequest] does exactly what the earlier revision
    does. *)
Theorem HandleRequest_basic_agrees (tm : Z) (r : Request) (s : Server) :
  SlotsUsed s <= numSlots ÷ 2 ->
  HandleRequest tm r s = HandleRequest_basic tm r s.
Proof.
  intros Hu. unfold HandleRequest, HandleRequest_basic.
  destruct (FindSlot s) as [i|p]; cbn [bind]; [|reflexivity].
  destruct (lru_Get (Item r) (Cache s)) as [c cached].
  unfold handleTime. apply Z.ltb_ge in Hu. rewrite Hu.
  destruct cached; reflexivity.
Qed.

Lemma HandleRequest_basic_agrees_witness :
  HandleRequest 7 request5 (busy_server 4 [] [])
  = HandleRequest_basic 7 request5 (busy_server 4 [] []).
Proof.
  apply HandleRequest_basic_agrees. vm_compute. discriminate.
Defined.

(** ** [Server.Tick] *)

Lemma release_nothing_due (t : Z) (idx : list nat) (s : Server) (ret : list Request) :
  settled t s -> Forall (fun i => (i < length (Slots s))%nat) idx ->
  release t idx s ret = Ok (s, ret).
Proof.
  intros Hs. induction 1 as [|i rest Hi _ IH]; cbn [release]; [reflexivity|].
  destruct (lookup_lt_is_Some_2 _ _ Hi) as [sl Hsl]. rewrite Hsl.
  pose proof (proj1 (Forall_lookup _ _) Hs i sl Hsl) as Hp. unfold pending in Hp.
  destruct (Full sl); cbn [andb]; [|exact IH].
  specialize (Hp eq_refl). apply Z.leb_gt in Hp. rewrite Hp. exact IH.
Qed.

(** X6.  A tick on a server with an empty queue and no slot due (every
    full slot completes after [tm]) changes nothing and completes
    nothing. *)
Theorem Server_Tick_nothing_to_do (t : Z) (s : Server) :
  Queue s = [] -> settled t s -> Server_Tick t s = Ok (s, []).
Proof.
  intros Hq Hs. unfold Server_Tick. rewrite Hq. cbn [admitLoop bind].
  apply release_nothing_due; [exact Hs | apply seq_in_range].
Qed.

Lemma Server_Tick_nothing_to_do_witness :
  Server_Tick 50 (busy_server 3 [4] []) = Ok (busy_server 3 [4] [], []).
Proof.
  apply Server_Tick_nothing_to_do; [reflexivity|].
  unfold settled, busy_server. cbn [Slots].
  apply Forall_app. split; apply Forall_replicate; unfold pending; cbn.
  - intros _. reflexivity.
  - intros H. discriminate.
Defined.

(** *** The release scan as a map over the slots *)

Lemma release_scan (t : Z) (suf pre : list Slot) (s s' : Server) (ret out : list Request) :
  Slots s = pre ++ suf ->
  release t (seq (length pre) (length suf)) s ret = Ok (s', out) ->
  Slots s' = pre ++ map (vacate t) suf /\
  out = ret ++ map Req (List.filter (due t) suf) /\
  Queue s' = Queue s /\
  Cache s' = fold_left (fun c r => lru_Add (Item r) c)
                       (map Req (List.filter (due t) suf)) (Cache s).
Proof.
  revert pre s ret. induction suf as [|x suf IH]; intros pre s ret Hs H;
    cbn [length seq release] in H.
  - injection H as <- <-. cbn [map List.filter fold_left].
    rewrite !app_nil_r. rewrite app_nil_r in Hs. auto.
  - assert (Hx : Slots s !! length pre = Some x)
      by (rewrite Hs; apply list_lookup_middle; reflexivity).
    rewrite Hx in H. cbn [map List.filter]. unfold vacate at 1. fold (due t x) in H.
    destruct (due t x) eqn:Hd.
    + unfold CompleteRequest in H. rewrite Hx in H. cbn [bind] in H.
      specialize (IH (pre ++ [{| Full := false; Req := Req x |}])).
      rewrite length_app in IH. cbn [length] in IH. rewrite Nat.add_1_r in IH.
      apply IH in H.
      * destruct H as (H1 & H2 & H3 & H4). cbn [Queue Cache] in *.
        rewrite <- app_assoc in H1. cbn [app] in H1.
        split; [exact H1|]. split; [|split; [exact H3|]].
        -- rewrite H2, <- app_assoc. reflexivity.
        -- cbn [map fold_left]. exact H4.
      * cbn [Slots]. rewrite Hs.
        replace (length pre) with (length pre + 0)%nat by lia.
        rewrite insert_app_r. cbn. rewrite <- app_assoc. reflexivity.
    + specialize (IH (pre ++ [x])).
      rewrite length_app in IH. cbn [length] in IH. rewrite Nat.add_1_r in IH.
      apply IH in H.
      * destruct H as (H1 & H2 & H3 & H4).
        rewrite <- app_assoc in H1. cbn [app] in H1. auto.
      * rewrite Hs, <- app_assoc. reflexivity.
Qed.

Lemma filter_insert_same (f : Slot -> bool) (l : list Slot) (i : nat) (old new : Slot) :
  l !! i = Some old -> f old = false -> f new = false ->
  List.filter f (<[i := new]> l) = List.filter f l.
Proof.
  revert i. induction l as [|x l IH]; intros [|i] Hi Ho Hn; simpl in *; try discriminate.
  - injection Hi as ->. rewrite Ho, Hn. reflexivity.
  - rewrite (IH i Hi Ho Hn). reflexivity.
Qed.

Lemma admitted_not_due (t : Z) (cached : bool) (u : Z) (r : Request) :
  tick_ok t -> 0 <= u <= numSlots ->
  due t {| Full := true; Req := admitted t cached u r |} = false.
Proof.
  intros Ht Hu. unfold due, admitted. cbn [Full Req Completed andb].
  pose proof (handleTime_bounds cached u Hu) as Hh.
  unfold tick_ok, cachedHandleTime in *. rewrite add64_small by lia.
  apply Z.leb_gt. lia.
Qed.

Lemma HandleRequest_admitted (t : Z) (r : Request) (s s' : Server) :
  HandleRequest t r s = Ok s' ->
  exists (i : nat) (sl : Slot),
    Slots s !! i = Some sl /\ Full sl = false /\
    Slots s' = <[i := {| Full := true;
                         Req := admitted t (lru_hit (Item r) (Cache s)) (SlotsUsed s) r |}]>
                 (Slots s) /\
    Queue s' = Queue s /\ SlotsUsed s' = add64 (SlotsUsed s) 1 /\
    Cache s' = fst (lru_Get (Item r) (Cache s)).
Proof.
  intros H. destruct (HandleRequest_Ok _ _ _ _ H) as (i & sl & _ & Hi & Hn & ->).
  exists i, sl. rewrite lru_Get_hit. cbn [Slots Queue SlotsUsed Cache].
  split; [exact Hi|]. split; [exact Hn|]. repeat split; reflexivity.
Qed.

Lemma holds_HandleRequest (t t' : Z) (r r' : Request) (s s' : Server) :
  holds t r s -> HandleRequest t' r' s = Ok s' -> holds t r s'.
Proof.
  intros (j & sl & Hj & Hf & Hd & Hr) H.
  destruct (HandleRequest_admitted _ _ _ _ H) as (i & sl0 & Hi & Hn & Hs & _).
  exists j, sl. split; [|auto].
  rewrite Hs. rewrite list_lookup_insert_ne; [exact Hj|].
  intros ->. rewrite Hi in Hj. injection Hj as ->. congruence.
Qed.

Lemma admitLoop_prefix (t : Z) (q : list Request) (s s1 : Server) :
  tick_ok t -> wf_server s -> Queue s = q ->
  admitLoop t q s = Ok s1 ->
  exists taken : list Request,
    q = taken ++ Queue s1 /\
    SlotsUsed s1 = SlotsUsed s + Z.of_nat (length taken) /\
    (Queue s1 = [] \/ SlotsUsed s1 = numSlots) /\
    List.filter (due t) (Slots s1) = List.filter (due t) (Slots s) /\
    Forall (fun r => holds t r s1) taken.
Proof.
  intros Ht. revert s. induction q as [|r q' IH]; intros s Hwf Hq H; cbn [admitLoop] in H.
  - injection H as <-. exists []. rewrite Hq. cbn [app length].
    split; [reflexivity|]. split; [lia|]. split; [left; reflexivity|].
    split; [reflexivity | constructor].
  - pose proof (wf_server_bounds _ Hwf) as Hb.
    destruct (SlotsUsed s <? numSlots) eqn:Hlt.
    + apply Z.ltb_lt in Hlt.
      destruct (HandleRequest t r s) as [s2|p] eqn:Hh; cbn [bind] in H; [|discriminate].
      pose proof (HandleRequest_wf _ _ _ _ Hwf Hh) as [Hl2 Hu2 _].
      destruct (HandleRequest_admitted _ _ _ _ Hh) as (i & sl0 & Hi & Hn & Hs2 & _ & Hsu & _).
      assert (Hnd : due t {| Full := true;
                             Req := admitted t (lru_hit (Item r) (Cache s)) (SlotsUsed s) r |}
                    = false) by (apply admitted_not_due; [exact Ht | lia]).
      destruct Hwf as [_ _ Hq0]. rewrite Hq in Hq0. cbn [length] in Hq0.
      set (s3 := {| Queue := q'; Slots := Slots s2; SlotsUsed := SlotsUsed s2;
                    Cache := Cache s2 |}) in *.
      assert (Hwf3 : wf_server s3) by (split; cbn [Queue Slots SlotsUsed s3]; [| |lia]; assumption).
      destruct (IH s3 Hwf3 eq_refl H) as (taken & Hq1 & Hu1 & Hstop & Hfil & Hheld).
      exists (r :: taken). cbn [app length].
      split; [rewrite Hq1 at 1; reflexivity|].
      split.
      { rewrite Hu1. cbn [SlotsUsed s3]. rewrite Hsu. unfold numSlots in *.
        rewrite add64_small by lia. lia. }
      split; [exact Hstop|].
      split.
      { rewrite Hfil. cbn [Slots s3]. rewrite Hs2.
        apply (filter_insert_same _ _ _ sl0); [exact Hi | | exact Hnd].
        unfold due. rewrite Hn. reflexivity. }
      constructor; [|exact Hheld].
      assert (Hh3 : holds t r s3).
      { exists i, {| Full := true;
                     Req := admitted t (lru_hit (Item r) (Cache s)) (SlotsUsed s) r |}.
        cbn [Slots s3]. rewrite Hs2.
        split; [apply list_lookup_insert_eq; eapply lookup_lt_Some; exact Hi|].
        split; [reflexivity|]. split; [exact Hnd|]. cbn. auto. }
      clear -Hh3 H. revert s3 Hh3 H. clear. intros s3.
      generalize dependent s3. induction q' as [|r2 q2 IHq]; intros s3 Hh3 H;
        cbn [admitLoop] in H.
      * injection H as <-. exact Hh3.
      * destruct (SlotsUsed s3 <? numSlots); [|injection H as <-; exact Hh3].
        destruct (HandleRequest t r2 s3) as [s4|p] eqn:Hh4; cbn [bind] in H; [|discriminate].
        eapply IHq; [|exact H].
        destruct (holds_HandleRequest _ _ _ _ _ _ Hh3 Hh4) as (j & sl & Hj & Hrest).
        exists j, sl. cbn [Slots]. auto.
    + injection H as <-. apply Z.ltb_ge in Hlt. exists []. rewrite Hq. cbn [app length].
      split; [reflexivity|]. split; [lia|]. split; [right; lia|].
      split; [reflexivity | constructor].
Qed.

Lemma Server_Tick_phases (t : Z) (s s' : Server) (done : list Request) :
  tick_ok t -> wf_server s ->
  Server_Tick t s = Ok (s', done) ->
  exists (s1 : Server) (taken : list Request),
    wf_server s1 /\
    Queue s = taken ++ Queue s1 /\
    SlotsUsed s1 = SlotsUsed s + Z.of_nat (length taken) /\
    (Queue s1 = [] \/ SlotsUsed s1 = numSlots) /\
    List.filter (due t) (Slots s1) = List.filter (due t) (Slots s) /\
    Forall (fun r => holds t r s1) taken /\
    Slots s' = map (vacate t) (Slots s1) /\
    done = map Req (List.filter (due t) (Slots s1)) /\
    Queue s' = Queue s1 /\
    Cache s' = fold_left (fun c r => lru_Add (Item r) c) done (Cache s1).
Proof.
  intros Ht Hwf H. unfold Server_Tick in H.
  destruct (admitLoop_total t (Queue s) s Hwf eq_refl) as (s1 & Ha & Hwf1 & _).
  rewrite Ha in H. cbn [bind] in H.
  destruct (admitLoop_prefix _ _ _ _ Ht Hwf eq_refl Ha)
    as (taken & Hq & Hu & Hstop & Hfil & Hheld).
  destruct (release_scan t (Slots s1) [] s1 s' [] done eq_refl H) as (H1 & H2 & H3 & H4).
  cbn [app] in H1, H2. exists s1, taken.
  split; [exact Hwf1|]. split; [exact Hq|]. split; [exact Hu|]. split; [exact Hstop|].
  split; [exact Hfil|]. split; [exact Hheld|]. split; [exact H1|]. split; [exact H2|].
  split; [exact H3|]. rewrite H2. exact H4.
Qed.

(** X7.  Admission is first in, first out and fills the free slots.
    [Server.Tick] at tick [t] takes from the head of the queue as many
    requests as there are free slots (all of them if there are fewer),
    leaves the rest of the queue in order, and each request taken sits in
    a full slot after the tick, with its [Item] and [Sent] and stamped
    [Accepted = t]. *)
Theorem Server_Tick_admits_head (t : Z) (s s' : Server) (done : list Request) :
  tick_ok t -> wf_server s ->
  Server_Tick t s = Ok (s', done) ->
  exists taken : list Request,
    Queue s = taken ++ Queue s' /\
    Z.of_nat (length taken)
    = Z.min (Z.of_nat (length (Queue s))) (numSlots - SlotsUsed s) /\
    Forall (fun r => holds t r s') taken.
Proof.
  intros Ht Hwf H.
  destruct (Server_Tick_phases _ _ _ _ Ht Hwf H)
    as (s1 & taken & Hwf1 & Hq & Hu & Hstop & _ & Hheld & Hs' & _ & Hq' & _).
  exists taken. rewrite Hq'. split; [exact Hq|]. split.
  - pose proof (wf_server_bounds _ Hwf1) as Hb1.
    pose proof (wf_server_bounds _ Hwf) as Hb.
    rewrite Hq, length_app, Nat2Z.inj_add.
    destruct Hstop as [He|He]; [rewrite He; cbn [length]|]; lia.
  - eapply Forall_impl; [exact Hheld|].
    intros r (j & sl & Hj & Hf & Hd & Hr).
    exists j, sl. rewrite Hs', list_lookup_fmap, Hj. cbn.
    unfold vacate. rewrite Hd. auto.
Qed.

Lemma Server_Tick_admits_head_witness :
  exists (s' : Server) (taken : list Request),
    Server_Tick 50 (busy_server 6 [] [request5; request9; request2]) = Ok (s', []) /\
    [request5; request9; request2] = taken ++ Queue s' /\
    Z.of_nat (length taken) = 2.
Proof.
  assert (Ht : tick_ok 50) by (unfold tick_ok; lia).
  assert (Hwf : wf_server (busy_server 6 [] [request5; request9; request2]))
    by wf_by_computation.
  eexists.
  match goal with
  | |- exists taken, ?T = Ok (?s', []) /\ _ =>
      assert (H : T = Ok (s', [])) by (vm_compute; reflexivity);
      destruct (Server_Tick_admits_head _ _ _ _ Ht Hwf H) as (taken & Hq & Hlen & _)
  end.
  exists taken. split; [exact H|]. split; [exact Hq | exact Hlen].
Defined.

(** X8.  The release scan frees exactly what is due, at once.
    [Server.Tick] at tick [t] returns the requests of the slots that were
    full with [Completed <= t] before the tick, in slot order, and after it
    no full slot has [Completed <= t]. *)
Theorem Server_Tick_releases_due (t : Z) (s s' : Server) (done : list Request) :
  tick_ok t -> wf_server s ->
  Server_Tick t s = Ok (s', done) ->
  done = map Req (List.filter (due t) (Slots s)) /\
  Forall (fun sl => due t sl = false) (Slots s') /\
  SlotsUsed s' = count_full (Slots s').
Proof.
  intros Ht Hwf H.
  destruct (Server_Tick_phases _ _ _ _ Ht Hwf H)
    as (s1 & taken & _ & _ & _ & _ & Hfil & _ & Hs' & Hd & _).
  split; [rewrite Hd, Hfil; reflexivity|]. split.
  - rewrite Hs'. apply Forall_map, List.Forall_forall. intros sl _.
    unfold vacate. destruct (due t sl) eqn:Hdue; [reflexivity | exact Hdue].
  - destruct (Server_Tick_total t s Hwf) as (s2 & d2 & H2 & Hwf2 & _).
    rewrite H in H2. injection H2 as <- <-. exact (wf_used _ Hwf2).
Qed.

Lemma Server_Tick_releases_due_witness :
  exists s' : Server,
    Server_Tick 101 (busy_server 3 [] []) = Ok (s', replicate 3 (Req busySlot)) /\
    SlotsUsed s' = 0.
Proof.
  assert (Ht : tick_ok 101) by (unfold tick_ok; lia).
  assert (Hwf : wf_server (busy_server 3 [] [])) by wf_by_computation.
  eexists. split; [vm_compute; reflexivity|].
  match goal with
  | |- SlotsUsed ?s' = _ =>
      assert (H : Server_Tick 101 (busy_server 3 [] []) = Ok (s', replicate 3 (Req busySlot)))
        by (vm_compute; reflexivity);
      destruct (Server_Tick_releases_due _ _ _ _ Ht Hwf H) as (_ & _ & Hu)
  end.
  rewrite Hu. reflexivity.
Defined.

(** ** Runs: stepping an invariant through the main loop *)

Lemma main_loop_invariant (I : Main -> Prop) (pol : Policy) :
  (forall (draws : list Draw) (m m' : Main) (f : bool),
      main_inv m -> tm (sim m) < lastTick -> I m ->
      main_body pol draws m = Ok (m', f) -> I m') ->
  forall (inputs : list (list Draw)) (m m' : Main) (b : bool),
    main_inv m -> tm (sim m) < lastTick -> I m ->
    main_loop pol inputs m = Ok (m', b) -> I m'.
Proof.
  intros Hstep inputs. induction inputs as [|draws rest IH]; intros m m' b Hinv Hlt HI H;
    cbn [main_loop] in H.
  - injection H as <- <-. exact HI.
  - destruct (main_body pol draws m) as [[m1 finish]|p] eqn:Hb; cbn [bind] in H;
      [|discriminate].
    pose proof (Hstep _ _ _ _ Hinv Hlt HI Hb) as HI1.
    destruct (main_body_inv _ _ _ _ _ Hinv Hlt Hb) as (Hinv1 & _ & _ & Hlast).
    destruct finish.
    + injection H as <- <-. exact HI1.
    + eapply IH; [exact Hinv1| |exact HI1|exact H].
      destruct (Z_lt_le_dec (tm (sim m1)) lastTick) as [Hl|Hl]; [exact Hl|].
      specialize (Hlast Hl). discriminate.
Qed.

(** The two phases of [Tick], and what it logs. *)
Lemma Tick_phases (pol : Policy) (draws : list Draw) (sim sim' : Sim) :
  Tick pol draws sim = Ok sim' ->
  exists (sim2 : Sim) (done : list Request),
    let tm1 := add64 (tm sim) 1 in
    let sim1 := {| tm := tm1; servers := servers sim; rrIdx := rrIdx sim;
                   stats := stats sim; droppedCount := droppedCount sim;
                   released := released sim |} in
    (if tm1 <=? requestLimit
     then dispatch pol (combine (GenerateRequests tm1 draws) (map pick draws)) sim1 = Ok sim2
     else sim2 = sim1) /\
    tick_servers tm1 (servers sim2) (stats sim2) = Ok (servers sim', stats sim', done) /\
    tm sim' = tm1 /\ rrIdx sim' = rrIdx sim2 /\ droppedCount sim' = droppedCount sim2 /\
    released sim' = released sim2 ++ map (pair tm1) done.
Proof.
  unfold Tick. intros H.
  match type of H with
  | bind ?d _ = _ => destruct d as [sim2|p2] eqn:Hd; cbn [bind] in H; [|discriminate]
  end.
  destruct (tick_servers _ (servers sim2) (stats sim2)) as [[[ss' st'] done]|p] eqn:Ht;
    cbn [bind] in H; [|discriminate].
  injection H as <-. exists sim2, done. cbn [tm servers stats rrIdx droppedCount released].
  split; [|auto].
  destruct (_ <=? requestLimit); [exact Hd | injection Hd as <-; reflexivity].
Qed.

Lemma tick_servers_gen (P Q : Server -> Prop) (D : Request -> Prop) (t : Z)
      (ss ss' : list Server) (st st' : Stats) (done : list Request) :
  (forall (s s' : Server) (d : list Request),
      P s -> Server_Tick t s = Ok (s', d) -> Q s' /\ Forall D d) ->
  Forall P ss ->
  tick_servers t ss st = Ok (ss', st', done) ->
  Forall Q ss' /\ Forall D done /\ st' = fold_left RecordStats done st.
Proof.
  intros HPQ. revert st ss' done.
  induction ss as [|s rest IH]; intros st ss' done HP H; cbn [tick_servers] in H.
  - injection H as <- <- <-. cbn [fold_left]. auto.
  - inversion HP as [|? ? Hs Hrest]; subst.
    destruct (Server_Tick t s) as [[s1 d1]|p] eqn:Hst; cbn [bind] in H; [|discriminate].
    destruct (tick_servers t rest _) as [[[rest1 st1] log]|p] eqn:Hr; cbn [bind] in H;
      [|discriminate].
    injection H as <- <- <-.
    destruct (HPQ _ _ _ Hs Hst) as [HQ1 HD1].
    destruct (IH _ _ _ Hrest Hr) as (HQr & HDr & Est).
    split; [constructor; assumption|]. split; [apply Forall_app; auto|].
    rewrite fold_left_app. exact Est.
Qed.

Lemma dispatch_stats (pol : Policy) (reqs : list (Request * Z)) (sim sim' : Sim) :
  dispatch pol reqs sim = Ok sim' ->
  stats sim' = {| totalRequests := totalRequests (stats sim) + Z.of_nat (length reqs);
                  acceptedRequests := acceptedRequests (stats sim);
                  totalCached := totalCached (stats sim);
                  totalQueued := totalQueued (stats sim);
                  totalTime := totalTime (stats sim) |}.
Proof.
  revert sim. induction reqs as [|[r pick] rest IH]; intros sim H; cbn [dispatch] in H.
  - injection H as <-. cbn [length]. rewrite Z.add_0_r. destruct (stats sim); reflexivity.
  - destruct (ChooseServer pol sim r pick) as [[i rr]|p1] eqn:Hc; cbn [bind] in H;
      [|discriminate].
    destruct (index (servers sim) i) as [s|p2] eqn:Hi; cbn [bind] in H; [|discriminate].
    apply IH in H. rewrite H. cbn [stats totalRequests acceptedRequests totalCached
                                     totalQueued totalTime length].
    f_equal. lia.
Qed.

(** ** The requests a run holds and releases *)

Lemma admitted_served (t : Z) (cached : bool) (u : Z) (r : Request) :
  tick_ok t -> fresh r -> 0 <= u < numSlots -> served (admitted t cached u r).
Proof.
  intros Ht [Hh Hc] Hu. unfold served, admitted, in_horizon in *.
  cbn [Sent Cached Completed Accepted]. split; [exact Hh|].
  assert (Hu' : 0 <= u <= numSlots) by lia.
  pose proof (handleTime_bounds cached u Hu') as Hb.
  pose proof (handleTime_exact cached u Hu') as He.
  unfold tick_ok, cachedHandleTime in *. rewrite add64_small by lia.
  rewrite He. unfold surcharge, baseTime. change (numSlots ÷ 2) with 4.
  unfold numSlots in Hu.
  destruct cached.
  - change (cachedHandleTime ÷ numSlots) with 1. unfold cachedHandleTime.
    destruct (4 <? u) eqn:H4; [apply Z.ltb_lt in H4|]; lia.
  - rewrite Hc. change (uncachedHandleTime ÷ numSlots) with 12. unfold uncachedHandleTime.
    destruct (4 <? u) eqn:H4; [apply Z.ltb_lt in H4|]; lia.
Qed.

Lemma AddRequest_held (PQ PS : Request -> Prop) (r : Request) (s : Server) :
  PQ r -> held PQ PS s -> held PQ PS (AddRequest r s).
Proof.
  intros Hr [Hq Hs]. unfold AddRequest, held.
  destruct (_ <? maxQueue); cbn [Queue Slots]; [|auto].
  split; [|exact Hs]. apply Forall_app. split; [exact Hq|]. constructor; [exact Hr | constructor].
Qed.

Lemma admitLoop_held (PQ PS : Request -> Prop) (t : Z) (q : list Request) (s s1 : Server) :
  (forall (r : Request) (cached : bool) (u : Z),
      PQ r -> 0 <= u < numSlots -> PS (admitted t cached u r)) ->
  wf_server s -> Queue s = q -> held PQ PS s ->
  admitLoop t q s = Ok s1 -> held PQ PS s1.
Proof.
  intros Hadm. revert s. induction q as [|r q' IH]; intros s Hwf Hq Hh H;
    cbn [admitLoop] in H.
  - injection H as <-. exact Hh.
  - destruct (SlotsUsed s <? numSlots) eqn:Hlt; [|injection H as <-; exact Hh].
    apply Z.ltb_lt in Hlt. pose proof (wf_server_bounds _ Hwf) as Hb.
    destruct (HandleRequest t r s) as [s2|p] eqn:Hr; cbn [bind] in H; [|discriminate].
    pose proof (HandleRequest_wf _ _ _ _ Hwf Hr) as [Hl2 Hu2 _].
    destruct (HandleRequest_admitted _ _ _ _ Hr) as (i & sl0 & Hi & Hn & Hs2 & _).
    destruct Hh as [Hhq Hhs]. rewrite Hq in Hhq.
    inversion Hhq as [|? ? Hpr Hpq']; subst.
    destruct Hwf as [_ _ Hq0]. rewrite Hq in Hq0. cbn [length] in Hq0.
    refine (IH {| Queue := q'; Slots := Slots s2; SlotsUsed := SlotsUsed s2;
                  Cache := Cache s2 |} _ eq_refl _ H).
    + split; cbn [Queue Slots SlotsUsed]; [assumption | assumption | lia].
    + split; cbn [Queue Slots]; [exact Hpq'|].
      rewrite Hs2. apply Forall_insert; [exact Hhs|].
      intros _. cbn [Req]. apply Hadm; [exact Hpr | lia].
Qed.

Lemma Server_Tick_held (PQ PS : Request -> Prop) (t : Z) (s s' : Server)
      (done : list Request) :
  (forall (r : Request) (cached : bool) (u : Z),
      PQ r -> 0 <= u < numSlots -> PS (admitted t cached u r)) ->
  wf_server s -> held PQ PS s ->
  Server_Tick t s = Ok (s', done) ->
  held PQ PS s' /\ Forall PS done.
Proof.
  intros Hadm Hwf Hh H. unfold Server_Tick in H.
  destruct (admitLoop t (Queue s) s) as [s1|p] eqn:Ha; cbn [bind] in H; [|discriminate].
  destruct (admitLoop_held PQ PS _ _ _ _ Hadm Hwf eq_refl Hh Ha) as [Hq1 Hs1].
  destruct (release_scan t (Slots s1) [] s1 s' [] done eq_refl H) as (Hs' & Hd & Hq' & _).
  cbn [app] in Hs', Hd. split; [split|].
  - rewrite Hq'. exact Hq1.
  - rewrite Hs'. apply Forall_map, List.Forall_forall. intros sl Hin.
    unfold vacate. destruct (due t sl); cbn [Full].
    + intros Hx. discriminate.
    + exact (proj1 (List.Forall_forall _ _) Hs1 _ Hin).
  - rewrite Hd. apply Forall_map, List.Forall_forall. intros sl Hin.
    apply filter_In in Hin as [Hin Hdue]. cbn.
    apply (proj1 (List.Forall_forall _ _) Hs1 _ Hin).
    unfold due in Hdue. apply andb_true_iff in Hdue as [Hf _]. exact Hf.
Qed.

Lemma Server_Tick_on_time (t : Z) (s s' : Server) (done : list Request) :
  0 <= t < 4611686018427387904 -> wf_server s -> settled t s ->
  Server_Tick (t + 1) s = Ok (s', done) ->
  Forall (fun r => Completed r = t + 1) done.
Proof.
  intros Ht Hwf Hs H.
  assert (Hok : tick_ok (t + 1)) by (unfold tick_ok; lia).
  destruct (Server_Tick_phases _ _ _ _ Hok Hwf H)
    as (s1 & taken & _ & _ & _ & _ & Hfil & _ & _ & Hd & _).
  rewrite Hd, Hfil. apply Forall_map, List.Forall_forall. intros sl Hin.
  apply filter_In in Hin as [Hin Hdue]. cbn.
  unfold due in Hdue. apply andb_true_iff in Hdue as [Hf Hle]. apply Z.leb_le in Hle.
  pose proof (proj1 (List.Forall_forall _ _) Hs _ Hin Hf) as Hp. lia.
Qed.

Lemma GenerateRequests_fresh (t : Z) (draws : list Draw) (r : Request) (p : Z) :
  1 <= t <= requestLimit ->
  In (r, p) (combine (GenerateRequests t draws) (map pick draws)) -> fresh r /\ Sent r = t.
Proof.
  intros Ht Hin. apply in_combine_l in Hin. unfold GenerateRequests in Hin.
  apply in_map_iff in Hin as (d & <- & _). unfold fresh, in_horizon. cbn. auto.
Qed.

Lemma requests_step (pol : Policy) (draws : list Draw) (m m' : Main) (f : bool) :
  main_inv m -> tm (sim m) < lastTick -> requests_inv m ->
  main_body pol draws m = Ok (m', f) -> requests_inv m'.
Proof.
  intros Hinv Hlt [Hheld Hrel] H.
  destruct (main_body_Ok _ _ _ _ _ H) as (sim1 & Ht & E1 & E2 & E3 & _).
  destruct (Tick_phases _ _ _ _ Ht) as (sim2 & done & Hdisp & Hts & Etm & _ & _ & Erel).
  pose proof (mi_tm _ Hinv) as Htm0. unfold lastTick, requestLimit in Hlt.
  assert (Et : add64 (tm (sim m)) 1 = tm (sim m) + 1) by (apply add64_small; lia).
  rewrite Et in *.
  assert (Hok : tick_ok (tm (sim m) + 1)) by (unfold tick_ok; lia).
  set (P := fun s : Server =>
              wf_server s /\ settled (tm (sim m)) s /\ held fresh served s).
  assert (HP : Forall P (servers (sim m))).
  { apply List.Forall_forall. intros s Hin. unfold P.
    split; [exact (proj1 (List.Forall_forall _ _) (mi_wf _ Hinv) _ Hin)|].
    split; [exact (proj1 (List.Forall_forall _ _) (mi_settled _ Hinv) _ Hin)|].
    exact (proj1 (List.Forall_forall _ _) Hheld _ Hin). }
  assert (H2 : Forall P (servers sim2) /\ released sim2 = released (sim m)).
  { destruct (tm (sim m) + 1 <=? requestLimit) eqn:Hle.
    - apply Z.leb_le in Hle. split.
      + eapply dispatch_preserves; cycle 2; [exact Hdisp | | exact HP].
        intros r pick s Hin (Hw & Hs & Hh). unfold P.
        split; [apply AddRequest_wf; exact Hw|]. split.
        * unfold settled, AddRequest in *. destruct (_ <? maxQueue); exact Hs.
        * apply AddRequest_held; [|exact Hh].
          eapply GenerateRequests_fresh; [|exact Hin]. lia.
      + apply dispatch_frame in Hdisp as (_ & Hr & _). exact Hr.
    - subst sim2. cbn [servers released]. auto. }
  destruct H2 as [HP2 Erel2].
  assert (Hrange : 0 <= tm (sim m) < 4611686018427387904) by lia.
  assert (Hstep : forall (s s' : Server) (d : list Request),
             P s -> Server_Tick (tm (sim m) + 1) s = Ok (s', d) ->
             held fresh served s' /\
             Forall (fun r => served r /\ Completed r = tm (sim m) + 1) d).
  { intros s s' d (Hw & Hs & Hh) Hst.
    destruct (Server_Tick_held fresh served _ _ _ _
                (fun r c u Hr Hu => admitted_served _ c u r Hok Hr Hu) Hw Hh Hst)
      as [Hh' Hd'].
    split; [exact Hh'|].
    pose proof (Server_Tick_on_time _ _ _ _ Hrange Hw Hs Hst) as Hon.
    apply List.Forall_forall. intros r Hin.
    split; [exact (proj1 (List.Forall_forall _ _) Hd' _ Hin)
           | exact (proj1 (List.Forall_forall _ _) Hon _ Hin)]. }
  destruct (tick_servers_gen P (held fresh served)
              (fun r => served r /\ Completed r = tm (sim m) + 1) _ _ _ _ _ _
              Hstep HP2 Hts) as (HQ & HD & _).
  split.
  - rewrite E2. exact HQ.
  - rewrite E1, E3, Etm, Erel, Erel2. apply Forall_app. split.
    + eapply Forall_impl; [exact Hrel|]. intros e (Hs & Hc & Hr).
      unfold logged. split; [exact Hs|]. split; [exact Hc | lia].
    + apply Forall_map, List.Forall_forall. intros r Hin.
      destruct (proj1 (List.Forall_forall _ _) HD _ Hin) as [Hs Hc].
      unfold logged. cbn [fst snd]. split; [exact Hs|]. split; [exact Hc | lia].
Qed.

Lemma main_init_requests : requests_inv main_init.
Proof.
  split; cbn [main_init sim init servers released]; [|constructor].
  apply Forall_replicate. split; cbn [newServer Queue Slots]; [constructor|].
  apply Forall_replicate. intros Hx. discriminate.
Qed.

Lemma run_requests (pol : Policy) (inputs : list (list Draw)) (m : Main) (b : bool) :
  main_loop pol inputs main_init = Ok (m, b) -> requests_inv m.
Proof.
  apply (main_loop_invariant requests_inv pol (requests_step pol));
    [exact main_init_inv | exact main_init_early | exact main_init_requests].
Qed.

(** X9.  In every run, a request released as completed was sent at a
    tick from 1 to [requestLimit] (no arrival is generated after the
    horizon), and was served in 10 to 13 ticks if it is marked [Cached], in
    100 to 136 ticks if not. *)
Theorem released_service_time (pol : Policy) (inputs : list (list Draw))
        (m : Main) (b : bool) :
  main_loop pol inputs main_init = Ok (m, b) ->
  forall (t : Z) (r : Request),
    In (t, r) (released (sim m)) ->
    1 <= Sent r <= requestLimit /\
    if Cached r then 10 <= Completed r - Accepted r <= 13
    else 100 <= Completed r - Accepted r <= 136.
Proof.
  intros H t r Hin.
  pose proof (ri_released _ (run_requests _ _ _ _ H)) as Hrel.
  destruct (proj1 (List.Forall_forall _ _) Hrel _ Hin) as ((Hh & Hs) & _).
  cbn [snd] in *. split; [exact Hh | exact Hs].
Qed.

(** X10.  In every run, a request is released in the very tick of its
    [Completed] stamp, never later, and the log never runs ahead of the
    clock. *)
Theorem released_when_completed (pol : Policy) (inputs : list (list Draw))
        (m : Main) (b : bool) :
  main_loop pol inputs main_init = Ok (m, b) ->
  forall (t : Z) (r : Request),
    In (t, r) (released (sim m)) -> Completed r = t /\ 1 <= t <= tm (sim m).
Proof.
  intros H t r Hin.
  pose proof (ri_released _ (run_requests _ _ _ _ H)) as Hrel.
  destruct (proj1 (List.Forall_forall _ _) Hrel _ Hin) as (_ & Hc & Ht).
  cbn [fst snd] in *. auto.
Qed.

Lemma released_service_time_witness :
  main_loop ModuloHash single_inputs main_init = Ok (single_final, false) /\
  In (101, completed5) (released (sim single_final)) /\
  100 <= Completed completed5 - Accepted completed5 <= 136.
Proof.
  assert (E : main_loop ModuloHash single_inputs main_init = Ok (single_final, false))
    by (vm_compute; reflexivity).
  assert (Hin : In (101, completed5) (released (sim single_final)))
    by (vm_compute; left; reflexivity).
  split; [exact E|]. split; [exact Hin|].
  exact (proj2 (released_service_time ModuloHash single_inputs single_final false E
                  101 completed5 Hin)).
Defined.

Lemma released_when_completed_witness :
  main_loop ModuloHash single_inputs main_init = Ok (single_final, false) /\
  In (101, completed5) (released (sim single_final)) /\
  Completed completed5 = 101.
Proof.
  assert (E : main_loop ModuloHash single_inputs main_init = Ok (single_final, false))
    by (vm_compute; reflexivity).
  assert (Hin : In (101, completed5) (released (sim single_final)))
    by (vm_compute; left; reflexivity).
  split; [exact E|]. split; [exact Hin|].
  exact (proj1 (released_when_completed ModuloHash single_inputs single_final false E
                  101 completed5 Hin)).
Defined.

(** ** The counters *)

Lemma sum_of_app (f : Request -> Z) (a b : list Request) :
  sum_of f (a ++ b) = sum_of f a + sum_of f b.
Proof.
  induction a as [|r a IH]; cbn [app sum_of]; [lia | rewrite IH; lia].
Qed.

Lemma RecordStats_tally (done rs : list Request) (st : Stats) :
  Forall small_stamps done -> tallied st rs ->
  tallied (fold_left RecordStats done st) (rs ++ done).
Proof.
  intros Hd. revert rs st. induction Hd as [|r done Hr _ IH]; intros rs st Ht;
    cbn [fold_left].
  - rewrite app_nil_r. exact Ht.
  - replace (rs ++ r :: done) with ((rs ++ [r]) ++ done) by (rewrite <- app_assoc; reflexivity).
    apply IH. destruct Ht as (H1 & H2 & H3 & H4). destruct Hr as (Hs & Ha & Hc).
    unfold tallied, RecordStats. cbn [acceptedRequests totalCached totalQueued totalTime].
    rewrite !sum_of_app, length_app. cbn [sum_of length].
    rewrite !sub64_small by lia.
    split; [lia|]. split; [destruct (Cached r); cbn [b2z]; lia|]. split; lia.
Qed.

Lemma tick_servers_stats (t : Z) (ss ss' : list Server) (st st' : Stats)
      (done : list Request) :
  tick_servers t ss st = Ok (ss', st', done) -> st' = fold_left RecordStats done st.
Proof.
  intros H.
  refine (proj2 (proj2 (tick_servers_gen (fun _ => True) (fun _ => True) (fun _ => True)
                          _ _ _ _ _ _ _ _ H))).
  - intros s s' d _ _. split; [exact I|]. apply List.Forall_forall. intros; exact I.
  - apply List.Forall_forall. intros; exact I.
Qed.

Lemma filter_none {A : Type} (f : A -> bool) (l : list A) :
  (forall x : A, In x l -> f x = false) -> List.filter f l = [].
Proof.
  induction l as [|x l IH]; intros H; cbn [List.filter]; [reflexivity|].
  rewrite (H x (or_introl eq_refl)). apply IH. intros y Hy. apply H. right. exact Hy.
Qed.

Lemma last_reset_step (t : Z) :
  t + 1 <> requestLimit ÷ 2 -> last_reset (t + 1) = last_reset t.
Proof.
  unfold last_reset. change (requestLimit ÷ 2) with 2000000. intros Hne.
  destruct (t + 1 <? 2000000) eqn:H1; destruct (t <? 2000000) eqn:H2; try reflexivity;
    try apply Z.ltb_lt in H1; try apply Z.ltb_ge in H1;
    try apply Z.ltb_lt in H2; try apply Z.ltb_ge in H2; lia.
Qed.

Lemma tally_step (pol : Policy) (draws : list Draw) (m m' : Main) (f : bool) :
  main_inv m -> tm (sim m) < lastTick ->
  requests_inv m /\ tallied (stats (sim m)) (recent m) ->
  main_body pol draws m = Ok (m', f) ->
  requests_inv m' /\ tallied (stats (sim m')) (recent m').
Proof.
  intros Hinv Hlt [Hreq Htal] H.
  pose proof (requests_step _ _ _ _ _ Hinv Hlt Hreq H) as Hreq'.
  split; [exact Hreq'|].
  destruct (main_body_inv _ _ _ _ _ Hinv Hlt H) as (Hinv' & Etm' & _).
  destruct (main_body_Ok _ _ _ _ _ H) as (sim1 & Ht & E1 & E2 & E3 & _ & _ & Hreset).
  destruct (Tick_phases _ _ _ _ Ht) as (sim2 & done & Hdisp & Hts & Etm & _ & _ & Erel).
  pose proof (mi_tm _ Hinv) as Htm0. unfold lastTick, requestLimit in Hlt.
  assert (Et : add64 (tm (sim m)) 1 = tm (sim m) + 1) by (apply add64_small; lia).
  rewrite Et in *.
  pose proof (ri_released _ Hreq') as Hlog.
  pose proof (mi_released _ Hinv') as Hrok.
  unfold recent. rewrite E1, Etm.
  destruct (tm sim1 =? requestLimit ÷ 2) eqn:Hr.
  - apply Z.eqb_eq in Hr. destruct Hreset as (-> & _).
    assert (Hnone : List.filter (fun e : Z * Request => last_reset (tm (sim m) + 1) <? fst e)
                      (released (sim m')) = []).
    { apply filter_none. intros e Hin. apply Z.ltb_ge.
      destruct (proj1 (List.Forall_forall _ _) Hlog _ Hin) as (_ & _ & Hle).
      rewrite E1, Hr in Hle. rewrite <- Etm, Hr. unfold last_reset.
      rewrite Z.ltb_irrefl. lia. }
    rewrite Hnone. cbn. repeat split; reflexivity.
  - apply Z.eqb_neq in Hr. destruct Hreset as (-> & _).
    rewrite Etm in Hr. rewrite (last_reset_step _ Hr).
    assert (E2s : released sim2 = released (sim m) /\
                  tallied (stats sim2) (recent m)).
    { destruct (tm (sim m) + 1 <=? requestLimit).
      - split; [apply dispatch_frame in Hdisp as (_ & Hx & _); exact Hx|].
        rewrite (dispatch_stats _ _ _ _ Hdisp). exact Htal.
      - subst sim2. split; [reflexivity | exact Htal]. }
    destruct E2s as [Erel2 Htal2].
    rewrite (tick_servers_stats _ _ _ _ _ _ Hts).
    rewrite E3, Erel, Erel2, List.filter_app, map_app.
    assert (Hall : map snd (List.filter (fun e : Z * Request => last_reset (tm (sim m)) <? fst e)
                              (map (pair (tm (sim m) + 1)) done)) = done).
    { assert (Hpass : last_reset (tm (sim m)) < tm (sim m) + 1).
      { unfold last_reset. change (requestLimit ÷ 2) with 2000000 in *.
        destruct (tm (sim m) <? 2000000) eqn:Hx;
          [apply Z.ltb_lt in Hx | apply Z.ltb_ge in Hx]; lia. }
      apply Z.ltb_lt in Hpass. clear -Hpass. induction done as [|r d IH]; cbn; [reflexivity|].
      rewrite Hpass. cbn. rewrite IH. reflexivity. }
    rewrite Hall. apply RecordStats_tally; [|exact Htal2].
    apply List.Forall_forall. intros r Hin.
    assert (Hin' : In (tm (sim m) + 1, r) (released (sim m'))).
    { rewrite E3, Erel. apply in_or_app. right. apply in_map. exact Hin. }
    destruct (proj1 (List.Forall_forall _ _) Hlog _ Hin') as (((Hs1 & _) & _) & _ & _).
    destruct (proj1 (List.Forall_forall _ _) Hrok _ Hin') as ((Hsa & Hat & Hc1 & Hc2) & Hct).
    cbn [fst snd] in *. unfold small_stamps, requestLimit, cachedHandleTime in *. lia.
Qed.

Lemma run_tally (pol : Policy) (inputs : list (list Draw)) (m : Main) (b : bool) :
  main_loop pol inputs main_init = Ok (m, b) ->
  requests_inv m /\ tallied (stats (sim m)) (recent m).
Proof.
  apply (main_loop_invariant
           (fun m => requests_inv m /\ tallied (stats (sim m)) (recent m))
           pol (tally_step pol));
    [exact main_init_inv | exact main_init_early |].
  split; [exact main_init_requests|]. repeat split; reflexivity.
Qed.

(** X11.  At every observation point of a run the counters of
    [RecordStats] aggregate exactly the requests released since the
    counters were last reset (since the start before tick [requestLimit/2],
    since that tick afterwards): [acceptedRequests] is their number,
    [totalCached] the number of those marked [Cached], [totalQueued] the
    sum of [Accepted - Sent] and [totalTime] the sum of
    [Completed - Sent]. *)
Theorem counters_tally (pol : Policy) (inputs : list (list Draw)) (m : Main) (b : bool) :
  main_loop pol inputs main_init = Ok (m, b) ->
  acceptedRequests (stats (sim m)) = Z.of_nat (length (recent m)) /\
  totalCached (stats (sim m)) = sum_of (fun r => b2z (Cached r)) (recent m) /\
  totalQueued (stats (sim m)) = sum_of (fun r => Accepted r - Sent r) (recent m) /\
  totalTime (stats (sim m)) = sum_of (fun r => Completed r - Sent r) (recent m).
Proof.
  intros H. exact (proj2 (run_tally _ _ _ _ H)).
Qed.

Lemma counters_tally_witness :
  main_loop ModuloHash burst_inputs main_init = Ok (burst_final, false) /\
  length (recent burst_final) = 5%nat /\
  acceptedRequests (stats (sim burst_final)) = 5 /\
  totalTime (stats (sim burst_final)) = 500.
Proof.
  assert (E : main_loop ModuloHash burst_inputs main_init = Ok (burst_final, false))
    by (vm_compute; reflexivity).
  destruct (counters_tally ModuloHash burst_inputs burst_final false E)
    as (Ha & _ & _ & Ht).
  split; [exact E|]. split; [vm_compute; reflexivity|].
  split; [rewrite Ha | rewrite Ht]; vm_compute; reflexivity.
Defined.

Lemma tally_bounds (rs : list Request) :
  Forall (fun r => Sent r <= Accepted r /\ 10 <= Completed r - Accepted r <= 136) rs ->
  0 <= sum_of (fun r => b2z (Cached r)) rs <= Z.of_nat (length rs) /\
  0 <= sum_of (fun r => Accepted r - Sent r) rs /\
  sum_of (fun r => Accepted r - Sent r) rs + 10 * Z.of_nat (length rs)
  <= sum_of (fun r => Completed r - Sent r) rs
  <= sum_of (fun r => Accepted r - Sent r) rs + 136 * Z.of_nat (length rs).
Proof.
  induction 1 as [|r rs [Hs Hc] _ IH]; cbn [sum_of length]; [lia|].
  rewrite Nat2Z.inj_succ. destruct (Cached r); cbn [b2z]; lia.
Qed.

(** X12.  At every observation point of a run the counters are
    consistent: cache hits never exceed the completed requests, the
    cumulated queueing delay is not negative, and the cumulated latency
    lies between the queueing delay plus 10 ticks and the queueing delay
    plus 136 ticks per completed request. *)
Theorem counters_consistent (pol : Policy) (inputs : list (list Draw)) (m : Main) (b : bool) :
  main_loop pol inputs main_init = Ok (m, b) ->
  0 <= totalCached (stats (sim m)) <= acceptedRequests (stats (sim m)) /\
  0 <= totalQueued (stats (sim m)) /\
  totalQueued (stats (sim m)) + 10 * acceptedRequests (stats (sim m))
  <= totalTime (stats (sim m))
  <= totalQueued (stats (sim m)) + 136 * acceptedRequests (stats (sim m)).
Proof.
  intros H. destruct (run_tally _ _ _ _ H) as [Hreq (Ha & Hc & Hq & Ht)].
  pose proof H as Hinv.
  apply main_loop_inv in Hinv as (Hinv & _); [|exact main_init_inv|exact main_init_early].
  rewrite Ha, Hc, Hq, Ht. apply tally_bounds.
  unfold recent. apply Forall_map, List.Forall_forall. intros e Hin.
  apply filter_In in Hin as [Hin _].
  destruct (proj1 (List.Forall_forall _ _) (ri_released _ Hreq) _ Hin) as ((_ & Hs) & _).
  destruct (proj1 (List.Forall_forall _ _) (mi_released _ Hinv) _ Hin) as ((Hsa & _) & _).
  cbn [fst snd] in *. split; [exact Hsa|].
  destruct (Cached (snd e)); lia.
Qed.

Lemma counters_consistent_witness :
  main_loop ModuloHash burst_inputs main_init = Ok (burst_final, false) /\
  acceptedRequests (stats (sim burst_final)) = 5 /\
  totalQueued (stats (sim burst_final)) + 50 <= totalTime (stats (sim burst_final)).
Proof.
  assert (E : main_loop ModuloHash burst_inputs main_init = Ok (burst_final, false))
    by (vm_compute; reflexivity).
  assert (Ha : acceptedRequests (stats (sim burst_final)) = 5) by (vm_compute; reflexivity).
  destruct (counters_consistent ModuloHash burst_inputs burst_final false E)
    as (_ & _ & Hlo & _).
  split; [exact E|]. split; [exact Ha|]. rewrite Ha in Hlo. exact Hlo.
Defined.

(** ** The cache stays within its capacity *)

Lemma filter_out_shorter (k : Z) (l : list Z) :
  In k l -> (length (List.filter (fun x => negb (Z.eqb x k)) l) < length l)%nat.
Proof.
  induction l as [|x l IH]; intros Hin; [destruct Hin|]. cbn [List.filter length].
  pose proof (List.filter_length_le (fun x => negb (x =? k)) l) as Hle.
  destruct (x =? k) eqn:Hx; cbn [negb length].
  - lia.
  - destruct Hin as [->|Hin]; [rewrite Z.eqb_refl in Hx; discriminate|].
    specialize (IH Hin). lia.
Qed.

Lemma MoveToFront_ok (k : Z) (l : list Z) :
  In k l -> List.NoDup l ->
  List.NoDup (MoveToFront k l) /\ (length (MoveToFront k l) <= length l)%nat.
Proof.
  intros Hin Hnd. unfold MoveToFront. split.
  - apply List.NoDup_cons.
    + intros Hk. apply filter_In in Hk as [_ Hk]. rewrite Z.eqb_refl in Hk. discriminate.
    + apply List.NoDup_filter. exact Hnd.
  - cbn [length]. pose proof (filter_out_shorter k l Hin). lia.
Qed.

Lemma NoDup_removelast (l : list Z) : List.NoDup l -> List.NoDup (removelast l).
Proof.
  induction 1 as [|x l Hx Hnd IH]; cbn [removelast]; [constructor|].
  destruct l as [|y l]; [constructor|].
  apply List.NoDup_cons; [|exact IH].
  intros Hin. apply Hx. clear -Hin. revert y Hin.
  induction l as [|z l IHl]; intros y Hin; cbn [removelast] in Hin; [destruct Hin|].
  destruct Hin as [->|Hin]; [left; reflexivity|]. right. exact (IHl _ Hin).
Qed.

Lemma lru_Get_ok (k : Z) (c : lru_Cache) : cache_ok c -> cache_ok (fst (lru_Get k c)).
Proof.
  intros (Hnd & Hlen & Hm). unfold lru_Get.
  destruct (lru_hit k c) eqn:Hh; cbn [fst]; [|split; auto].
  apply lru_hit_In in Hh. destruct (MoveToFront_ok _ _ Hh Hnd) as [Hnd' Hlen'].
  unfold cache_ok. cbn [ll MaxEntries]. split; [exact Hnd'|]. split; [lia | exact Hm].
Qed.

Lemma lru_Add_ok (k : Z) (c : lru_Cache) : cache_ok c -> cache_ok (lru_Add k c).
Proof.
  intros (Hnd & Hlen & Hm). unfold lru_Add.
  destruct (lru_hit k c) eqn:Hh.
  - apply lru_hit_In in Hh. destruct (MoveToFront_ok _ _ Hh Hnd) as [Hnd' Hlen'].
    unfold cache_ok. cbn [ll MaxEntries]. split; [exact Hnd'|]. split; [lia | exact Hm].
  - assert (Hnin : ~ In k (ll c)).
    { intros Hin. apply lru_hit_In in Hin. congruence. }
    assert (Hnd1 : List.NoDup (k :: ll c)) by (apply List.NoDup_cons; assumption).
    cbn [MaxEntries ll].
    destruct (negb (MaxEntries c =? 0) && (MaxEntries c <? Z.of_nat (length (k :: ll c))))
      eqn:He.
    + unfold RemoveOldest, cache_ok. cbn [ll MaxEntries].
      split; [apply NoDup_removelast; exact Hnd1|]. split; [|exact Hm].
      assert (Hrl : length (removelast (k :: ll c)) = length (ll c)).
      { clear. generalize k. induction (ll c) as [|y l IH]; intros x; [reflexivity|].
        change (removelast (x :: y :: l)) with (x :: removelast (y :: l)).
        cbn [length]. rewrite IH. reflexivity. }
      rewrite Hrl. exact Hlen.
    + unfold cache_ok. cbn [ll MaxEntries]. split; [exact Hnd1|]. split; [|exact Hm].
      apply andb_false_iff in He as [He|He].
      * apply negb_false_iff, Z.eqb_eq in He. rewrite Hm in He. discriminate.
      * apply Z.ltb_ge in He. rewrite Hm in He. exact He.
Qed.

Lemma admitLoop_cache (P : lru_Cache -> Prop) (t : Z) (q : list Request) (s s1 : Server) :
  (forall (k : Z) (c : lru_Cache), P c -> P (fst (lru_Get k c))) ->
  P (Cache s) -> admitLoop t q s = Ok s1 -> P (Cache s1).
Proof.
  intros HP. revert s. induction q as [|r q' IH]; intros s Hc H; cbn [admitLoop] in H.
  - injection H as <-. exact Hc.
  - destruct (SlotsUsed s <? numSlots); [|injection H as <-; exact Hc].
    destruct (HandleRequest t r s) as [s2|p] eqn:Hr; cbn [bind] in H; [|discriminate].
    destruct (HandleRequest_admitted _ _ _ _ Hr) as (_ & _ & _ & _ & _ & _ & _ & Hc2).
    refine (IH {| Queue := q'; Slots := Slots s2; SlotsUsed := SlotsUsed s2;
                  Cache := Cache s2 |} _ H).
    cbn [Cache]. rewrite Hc2. apply HP. exact Hc.
Qed.

Lemma Server_Tick_cache (t : Z) (s s' : Server) (done : list Request) :
  cache_ok (Cache s) -> Server_Tick t s = Ok (s', done) -> cache_ok (Cache s').
Proof.
  intros Hc H. unfold Server_Tick in H.
  destruct (admitLoop t (Queue s) s) as [s1|p] eqn:Ha; cbn [bind] in H; [|discriminate].
  pose proof (admitLoop_cache cache_ok _ _ _ _ lru_Get_ok Hc Ha) as Hc1.
  destruct (release_scan t (Slots s1) [] s1 s' [] done eq_refl H) as (_ & _ & _ & ->).
  generalize (map Req (List.filter (due t) (Slots s1))). intros l.
  revert Hc1. generalize (Cache s1). induction l as [|r l IH]; intros c Hc1;
    cbn [fold_left]; [exact Hc1|].
  apply IH. apply lru_Add_ok. exact Hc1.
Qed.

Lemma cache_step (pol : Policy) (draws : list Draw) (m m' : Main) (f : bool) :
  main_inv m -> tm (sim m) < lastTick ->
  Forall (fun s => cache_ok (Cache s)) (servers (sim m)) ->
  main_body pol draws m = Ok (m', f) ->
  Forall (fun s => cache_ok (Cache s)) (servers (sim m')).
Proof.
  intros _ _ Hc H.
  destruct (main_body_Ok _ _ _ _ _ H) as (sim1 & Ht & _ & E2 & _).
  destruct (Tick_phases _ _ _ _ Ht) as (sim2 & done & Hdisp & Hts & _).
  assert (Hc2 : Forall (fun s => cache_ok (Cache s)) (servers sim2)).
  { cbv zeta in Hdisp. destruct (add64 (tm (sim m)) 1 <=? requestLimit).
    - eapply dispatch_preserves; cycle 2; [exact Hdisp | | exact Hc].
      intros r pick s _ Hs. unfold AddRequest. destruct (_ <? maxQueue); exact Hs.
    - subst sim2. exact Hc. }
  rewrite E2.
  refine (tick_servers_preserves (fun s => cache_ok (Cache s)) (fun s => cache_ok (Cache s))
            _ _ _ _ _ _ _ Hc2 Hts).
  intros s s' d Hs Hst. exact (Server_Tick_cache _ _ _ _ Hs Hst).
Qed.

(** X13.  In every run, the cache of every server holds no key twice and
    never more than [cacheSize] keys. *)
Theorem cache_within_capacity (pol : Policy) (inputs : list (list Draw))
        (m : Main) (b : bool) :
  main_loop pol inputs main_init = Ok (m, b) ->
  Forall (fun s => List.NoDup (ll (Cache s)) /\
                   Z.of_nat (length (ll (Cache s))) <= cacheSize /\
                   MaxEntries (Cache s) = cacheSize)
         (servers (sim m)).
Proof.
  apply (main_loop_invariant
           (fun m => Forall (fun s => cache_ok (Cache s)) (servers (sim m)))
           pol (cache_step pol));
    [exact main_init_inv | exact main_init_early |].
  cbn [main_init sim init servers]. apply Forall_replicate.
  unfold cache_ok. cbn. split; [constructor|]. split; [discriminate | reflexivity].
Qed.

Lemma cache_within_capacity_witness :
  main_loop ModuloHash burst_inputs main_init = Ok (burst_final, false) /\
  Forall (fun s => Z.of_nat (length (ll (Cache s))) <= cacheSize)
         (servers (sim burst_final)) /\
  exists s : Server, servers (sim burst_final) !! 5%nat = Some s /\ ll (Cache s) = [5].
Proof.
  assert (E : main_loop ModuloHash burst_inputs main_init = Ok (burst_final, false))
    by (vm_compute; reflexivity).
  split; [exact E|]. split.
  - eapply Forall_impl; [exact (cache_within_capacity _ _ _ _ E)|].
    intros s (_ & H & _). exact H.
  - eexists. split; vm_compute; reflexivity.
Defined.

(** ** Routing never leaves the servers *)


Lemma ChooseServer_rrIdx (pol : Policy) (sim : Sim) (r : Request) (pick i rr : Z) :
  0 <= rrIdx sim < numServers ->
  ChooseServer pol sim r pick = Ok (i, rr) -> 0 <= rr < numServers.
Proof.
  intros Hrr H. unfold numServers in *. destruct pol; cbn [ChooseServer] in H.
  - injection H as _ <-. exact Hrr.
  - injection H as _ <-. rewrite add64_small by lia. unfold numServers.
    apply Z.rem_bound_pos; lia.
  - injection H as _ <-. exact Hrr.
  - destruct (modchoose2 (servers sim) r); cbn [bind] in H; [|discriminate].
    injection H as _ <-. exact Hrr.
Qed.

Lemma dispatch_routable (pol : Policy) (reqs : list (Request * Z)) (sim sim' : Sim) :
  routable sim -> dispatch pol reqs sim = Ok sim' -> routable sim'.
Proof.
  revert sim. induction reqs as [|[r pick] rest IH]; intros sim [Hlen Hrr] H;
    cbn [dispatch] in H.
  - injection H as <-. split; assumption.
  - destruct (ChooseServer pol sim r pick) as [[i rr]|p1] eqn:Hc; cbn [bind] in H;
      [|discriminate].
    destruct (index (servers sim) i) as [s|p2] eqn:Hi; cbn [bind] in H; [|discriminate].
    apply IH in H; [exact H|]. split; cbn [servers rrIdx].
    + rewrite length_insert. exact Hlen.
    + eapply ChooseServer_rrIdx; eauto.
Qed.



Lemma Tick_routable (pol : Policy) (draws : list Draw) (sim sim' : Sim) :
  Forall wf_server (servers sim) -> routable sim ->
  Tick pol draws sim = Ok sim' -> routable sim'.
Proof.
  intros Hwf [Hlen Hrr] H.
  destruct (Tick_Ok _ _ _ _ Hwf H) as (_ & _ & _ & Hl).
  destruct (Tick_phases _ _ _ _ H) as (sim2 & done & Hdisp & _ & _ & Er & _).
  cbv zeta in Hdisp. split; [rewrite Hl; exact Hlen|]. rewrite Er.
  destruct (add64 (tm sim) 1 <=? requestLimit).
  - apply dispatch_routable in Hdisp; [exact (proj2 Hdisp)|]. split; assumption.
  - subst sim2. exact Hrr.
Qed.


Lemma routable_step (pol : Policy) (draws : list Draw) (m m' : Main) (f : bool) :
  main_inv m -> tm (sim m) < lastTick -> routable (sim m) ->
  main_body pol draws m = Ok (m', f) -> routable (sim m').
Proof.
  intros Hinv _ Hr H.
  destruct (main_body_Ok _ _ _ _ _ H) as (sim1 & Ht & _ & E2 & _).
  pose proof (Tick_routable _ _ _ _ (mi_wf _ Hinv) Hr Ht) as [Hl Hrr].
  unfold routable. rewrite E2. split; [exact Hl|].
  unfold main_body in H. rewrite Ht in H. cbn [bind] in H. injection H as <- _.
  cbn [sim rrIdx]. exact Hrr.
Qed.

Lemma main_init_routable : routable (sim main_init).
Proof. split; [reflexivity | split; [reflexivity | reflexivity]]. Qed.

Lemma run_routable (pol : Policy) (inputs : list (list Draw)) (m : Main) (b : bool) :
  main_loop pol inputs main_init = Ok (m, b) -> routable (sim m).
Proof.
  apply (main_loop_invariant (fun m => routable (sim m)) pol (routable_step pol));
    [exact main_init_inv | exact main_init_early | exact main_init_routable].
Qed.

(** X14.  In every run there are [numServers] servers, [rrIdx] indexes one
    of them, no queue ever holds more than [maxQueue] requests, and
    [Outstanding()] is the queue length plus the slots in use, between 0
    and [maxQueue + numSlots]. *)
Theorem queues_bounded (pol : Policy) (inputs : list (list Draw)) (m : Main) (b : bool) :
  main_loop pol inputs main_init = Ok (m, b) ->
  Z.of_nat (length (servers (sim m))) = numServers /\
  0 <= rrIdx (sim m) < numServers /\
  Forall (fun s => Z.of_nat (length (Queue s)) <= maxQueue /\
                   Outstanding s = Z.of_nat (length (Queue s)) + SlotsUsed s /\
                   0 <= Outstanding s <= maxQueue + numSlots)
         (servers (sim m)).
Proof.
  intros H. split; [exact (proj1 (run_routable _ _ _ _ H))|].
  split; [exact (proj2 (run_routable _ _ _ _ H))|].
  apply main_loop_inv in H as (Hinv & _); [|exact main_init_inv|exact main_init_early].
  eapply Forall_impl; [exact (mi_wf _ Hinv)|]. intros s Hwf.
  pose proof (wf_server_bounds _ Hwf) as Hb. pose proof (wf_queue _ Hwf) as Hq.
  rewrite (Outstanding_wf _ Hwf). unfold inflight. split; [exact Hq|].
  split; [reflexivity | lia].
Qed.

Lemma queues_bounded_witness :
  main_loop ModuloHash [arrivals 70 5] main_init
  = Ok (run_state (main_loop ModuloHash [arrivals 70 5] main_init), false) /\
  exists s : Server,
    servers (sim (run_state (main_loop ModuloHash [arrivals 70 5] main_init))) !! 5%nat
    = Some s /\
    length (Queue s) = 42%nat /\ Z.of_nat (length (Queue s)) <= maxQueue.
Proof.
  assert (E : main_loop ModuloHash [arrivals 70 5] main_init
              = Ok (run_state (main_loop ModuloHash [arrivals 70 5] main_init), false))
    by (vm_compute; reflexivity).
  split; [exact E|].
  destruct (queues_bounded _ _ _ _ E) as (_ & _ & Hall).
  eexists. split; [vm_compute; reflexivity|]. split; [reflexivity|].
  match goal with
  | |- Z.of_nat (length (Queue ?s)) <= _ =>
      assert (Hs : servers (sim (run_state (main_loop ModuloHash [arrivals 70 5] main_init)))
                   !! 5%nat = Some s) by (vm_compute; reflexivity);
      exact (proj1 (proj1 (Forall_lookup _ _) Hall _ _ Hs))
  end.
Defined.

(** ** Runs end, and end well *)




Lemma main_loop_last (I : Main -> Prop) (pol : Policy) :
  (forall (draws : list Draw) (m m' : Main) (f : bool),
      main_inv m -> tm (sim m) < lastTick -> I m ->
      main_body pol draws m = Ok (m', f) -> I m') ->
  forall (inputs : list (list Draw)) (m0 m : Main),
    main_inv m0 -> tm (sim m0) < lastTick -> I m0 ->
    main_loop pol inputs m0 = Ok (m, true) ->
    exists (draws : list Draw) (mp : Main),
      main_inv mp /\ I mp /\ main_body pol draws mp = Ok (m, true).
Proof.
  intros Hstep inputs. induction inputs as [|draws rest IH]; intros m0 m Hinv Hlt HI H;
    cbn [main_loop] in H.
  - discriminate.
  - destruct (main_body pol draws m0) as [[m1 finish]|p] eqn:Hb; cbn [bind] in H;
      [|discriminate].
    destruct finish.
    + injection H as <-. exists draws, m0. auto.
    + destruct (main_body_inv _ _ _ _ _ Hinv Hlt Hb) as (Hinv1 & _ & _ & Hlast).
      eapply IH; [exact Hinv1 | | exact (Hstep _ _ _ _ Hinv Hlt HI Hb) | exact H].
      destruct (Z_lt_le_dec (tm (sim m1)) lastTick) as [Hl|Hl]; [exact Hl|].
      specialize (Hlast Hl). discriminate.
Qed.

Lemma total_Outstanding_sum (ss : list Server) (acc : Z) :
  Forall wf_server ss -> 0 <= acc ->
  acc + 58 * Z.of_nat (length ss) <= 4611686018427387904 ->
  fold_left (fun total s => add64 total (Outstanding s)) ss acc = acc + total_inflight ss.
Proof.
  intros Hwf. revert acc. induction Hwf as [|s ss Hs _ IH]; intros acc Ha Hb;
    cbn [fold_left total_inflight length] in *; [lia|].
  rewrite Nat2Z.inj_succ in Hb.
  pose proof (wf_server_bounds _ Hs) as Hu. pose proof (wf_queue _ Hs) as Hq.
  rewrite (Outstanding_wf _ Hs). unfold inflight, numSlots, maxQueue in *.
  rewrite add64_small by lia. rewrite IH by lia. lia.
Qed.

Lemma total_inflight_zero (ss : list Server) :
  Forall wf_server ss -> total_inflight ss = 0 ->
  Forall (fun s => Queue s = [] /\ SlotsUsed s = 0) ss.
Proof.
  induction 1 as [|s ss Hs Hrest IH]; cbn [total_inflight]; intros H0; [constructor|].
  pose proof (wf_server_bounds _ Hs) as Hu.
  assert (Hnn : 0 <= total_inflight ss).
  { clear -Hrest. induction Hrest as [|x l Hx _ IHl]; cbn [total_inflight]; [lia|].
    pose proof (wf_server_bounds _ Hx). unfold inflight. lia. }
  unfold inflight in H0. constructor; [|apply IH; lia].
  split; [|lia]. destruct (Queue s); [reflexivity|]. cbn [length] in H0. lia.
Qed.

Lemma main_body_finished (pol : Policy) (draws : list Draw) (m0 m : Main) :
  Forall wf_server (servers (sim m0)) ->
  Z.of_nat (length (servers (sim m0))) = numServers ->
  main_body pol draws m0 = Ok (m, true) -> finished m.
Proof.
  intros Hwf Hlen H. unfold main_body in H.
  destruct (Tick pol draws (sim m0)) as [sim1|p] eqn:Ht; cbn [bind] in H; [|discriminate].
  destruct (Tick_Ok _ _ _ _ Hwf Ht) as (_ & Hwf1 & _ & Hl1).
  injection H as <- Hfin.
  apply andb_true_iff in Hfin as [Htot Hlim]. apply Z.eqb_eq in Htot. apply Z.leb_le in Hlim.
  unfold finished. cbn [sim tm servers stats tmx output].
  split; [exact Hlim|]. split.
  - apply total_inflight_zero; [exact Hwf1|].
    unfold total_Outstanding in Htot.
    rewrite total_Outstanding_sum in Htot; [lia | exact Hwf1 | lia |].
    rewrite Hl1. unfold numServers in Hlen. lia.
  - assert (Ef : (total_Outstanding (servers sim1) =? 0) && (requestLimit <=? tm sim1) = true).
    { apply andb_true_iff. split; [apply Z.eqb_eq; exact Htot | apply Z.leb_le; exact Hlim]. }
    rewrite Ef, orb_true_r. exists (output m0). reflexivity.
Qed.

(** X16.  The iteration of the main loop that sets [finish] has emptied
    every server (no request queued, no slot in use), at a tick not before
    [requestLimit], and the last progress line printed is the one of this
    final state.  So ends every run that finishes, by tick [lastTick]. *)
Theorem finish_is_clean (pol : Policy) :
  (forall (draws : list Draw) (m0 m : Main),
      Forall wf_server (servers (sim m0)) ->
      Z.of_nat (length (servers (sim m0))) = numServers ->
      main_body pol draws m0 = Ok (m, true) -> finished m) /\
  (forall (inputs : list (list Draw)) (m : Main),
      main_loop pol inputs main_init = Ok (m, true) ->
      finished m /\ tm (sim m) <= lastTick).
Proof.
  split; [intros draws m0 m; apply main_body_finished|].
  intros inputs m H.
  destruct (main_loop_last (fun m => routable (sim m)) pol (routable_step pol)
              inputs main_init m main_init_inv main_init_early main_init_routable H)
    as (draws & mp & Hinv & [Hlen _] & Hb).
  split; [exact (main_body_finished _ _ _ _ (mi_wf _ Hinv) Hlen Hb)|].
  apply main_loop_inv in H as (_ & _ & Hle & _); [exact Hle|exact main_init_inv|exact main_init_early].
Qed.

Lemma finish_is_clean_witness :
  exists m : Main,
    main_body ModuloHash [] late_idle = Ok (m, true) /\ tm (sim m) = requestLimit /\
    finished m.
Proof.
  eexists. split; [vm_compute; reflexivity|]. split; [reflexivity|].
  refine (proj1 (finish_is_clean ModuloHash) [] late_idle _ _ _ _).
  - apply Forall_replicate. exact newServer_wf.
  - reflexivity.
  - vm_compute. reflexivity.
Defined.

(** ** The policies *)

Lemma dispatch_roundrobin (reqs : list (Request * Z)) (n : Z) (sim : Sim) :
  0 <= n -> rr_spread n sim ->
  exists sim' : Sim,
    dispatch RoundRobin reqs sim = Ok sim' /\
    rr_spread (n + Z.of_nat (length reqs)) sim'.
Proof.
  revert n sim. induction reqs as [|[r pick] rest IH]; intros n sim Hn Hsp;
    cbn [dispatch length].
  - exists sim. split; [reflexivity|]. rewrite Z.add_0_r. exact Hsp.
  - destruct Hsp as (Hlen & Hrr & Hq). unfold numServers, maxQueue in *.
    cbn [ChooseServer bind].
    assert (Hi : 0 <= rrIdx sim < 100) by (rewrite Hrr; apply Z.mod_pos_bound; lia).
    assert (Hi' : (Z.to_nat (rrIdx sim) < length (servers sim))%nat) by lia.
    destruct (lookup_lt_is_Some_2 _ _ Hi') as [s Hs].
    unfold index. destruct (rrIdx sim <? 0) eqn:H0; [apply Z.ltb_lt in H0; lia|].
    rewrite Hs. cbn [bind].
    rewrite Nat2Z.inj_succ.
    replace (n + Z.succ (Z.of_nat (length rest))) with ((n + 1) + Z.of_nat (length rest))
      by lia.
    apply IH; [lia|].
    split; [cbn [servers]; rewrite length_insert; exact Hlen|]. split.
    + cbn [rrIdx]. rewrite add64_small by lia. unfold numServers.
      rewrite Z.rem_mod_nonneg by lia. rewrite Hrr.
      rewrite Zplus_mod_idemp_l. reflexivity.
    + cbn [servers]. intros j s' Hj. unfold numServers, maxQueue.
      destruct (Nat.eq_dec j (Z.to_nat (rrIdx sim))) as [->|Hne].
      * rewrite list_lookup_insert_eq in Hj by exact Hi'. injection Hj as <-.
        pose proof (Hq _ _ Hs) as Hl. rewrite Z2Nat.id in * by lia.
        unfold AddRequest, maxQueue.
        destruct (Z.of_nat (length (Queue s)) <? 50) eqn:Hlt;
          [apply Z.ltb_lt in Hlt | apply Z.ltb_ge in Hlt];
          cbn [Queue]; rewrite ?length_app; cbn [length];
          rewrite Hrr in *; revert Hl Hlt; Z.div_mod_to_equations; lia.
      * rewrite list_lookup_insert_ne in Hj by congruence.
        pose proof (Hq _ _ Hj) as Hl. rewrite Hl.
        assert (Hjl : (j < length (servers sim))%nat) by (eapply lookup_lt_Some; exact Hj).
        assert (Hne' : Z.of_nat j <> n mod 100) by (rewrite <- Hrr; lia).
        f_equal. revert Hne'. Z.div_mod_to_equations. lia.
Qed.

(** X17.  Round robin spreads a burst evenly.  Dispatching any number of
    requests under [roundrobin] into empty queues, from [rrIdx = 0], never
    panics; it offers request [k] to server [k mod numServers], so that
    server [j] ends with every hundredth request from the [j]-th on, up to
    [maxQueue], and [rrIdx] ends at the number of requests modulo
    [numServers]. *)
Theorem roundrobin_spreads (reqs : list (Request * Z)) (sim : Sim) :
  Z.of_nat (length (servers sim)) = numServers ->
  rrIdx sim = 0 ->
  Forall (fun s => Queue s = []) (servers sim) ->
  exists sim' : Sim,
    dispatch RoundRobin reqs sim = Ok sim' /\
    rrIdx sim' = Z.of_nat (length reqs) mod numServers /\
    forall (j : nat) (s : Server),
      servers sim' !! j = Some s ->
      Z.of_nat (length (Queue s))
      = Z.min maxQueue
              ((Z.of_nat (length reqs) + (numServers - 1) - Z.of_nat j) / numServers).
Proof.
  intros Hlen Hrr Hq.
  assert (Hsp : rr_spread 0 sim).
  { split; [exact Hlen|]. split; [rewrite Hrr; reflexivity|].
    intros j s Hj. rewrite (proj1 (Forall_lookup _ _) Hq _ _ Hj).
    assert (Hjl : (j < length (servers sim))%nat) by (eapply lookup_lt_Some; exact Hj).
    unfold numServers, maxQueue in *. cbn [length].
    Z.div_mod_to_equations. lia. }
  destruct (dispatch_roundrobin reqs 0 sim ltac:(lia) Hsp) as (sim' & Hd & _ & Hrr' & Hq').
  exists sim'. split; [exact Hd|]. cbn [Z.add] in *. auto.
Qed.

Lemma roundrobin_spreads_witness :
  exists (sim' : Sim) (s49 s50 : Server),
    dispatch RoundRobin (replicate 250 (request5, 0)) init = Ok sim' /\
    rrIdx sim' = 50 /\
    servers sim' !! 49%nat = Some s49 /\ servers sim' !! 50%nat = Some s50 /\
    Z.of_nat (length (Queue s49)) = 3 /\ Z.of_nat (length (Queue s50)) = 2.
Proof.
  assert (Hlen : Z.of_nat (length (servers init)) = numServers) by reflexivity.
  assert (Hrr : rrIdx init = 0) by reflexivity.
  assert (Hq : Forall (fun s => Queue s = []) (servers init)).
  { apply Forall_replicate. reflexivity. }
  destruct (roundrobin_spreads (replicate 250 (request5, 0)) init Hlen Hrr Hq)
    as (sim' & Hd & Hrr' & Hq').
  assert (H49 : is_Some (servers sim' !! 49%nat)).
  { apply lookup_lt_is_Some_2.
    assert (Hr : routable sim').
    { eapply dispatch_routable; [|exact Hd]. split; [exact Hlen | split; reflexivity]. }
    destruct Hr as [Hl _]. unfold numServers in Hl. lia. }
  assert (H50 : is_Some (servers sim' !! 50%nat)).
  { apply lookup_lt_is_Some_2.
    assert (Hr : routable sim').
    { eapply dispatch_routable; [|exact Hd]. split; [exact Hlen | split; reflexivity]. }
    destruct Hr as [Hl _]. unfold numServers in Hl. lia. }
  destruct H49 as [s49 H49]. destruct H50 as [s50 H50].
  exists sim', s49, s50. split; [exact Hd|]. split; [rewrite Hrr'; reflexivity|].
  split; [exact H49|]. split; [exact H50|].
  split; [rewrite (Hq' _ _ H49) | rewrite (Hq' _ _ H50)]; reflexivity.
Defined.

(** X18.  [modulohash] follows Go's remainder, which takes the sign of
    the key: for a key that is not negative it is [key mod numServers], an
    index of a server; for a negative key that is not a multiple of
    [numServers] it is negative, and dispatching the request panics with an
    index out of range. *)
Theorem modulohash_index (r : Request) :
  (0 <= Item r -> modulohash r = Item r mod numServers /\ 0 <= modulohash r < numServers) /\
  (0 <= modulohash r < numServers <-> 0 <= Item r \/ Z.rem (Item r) numServers = 0) /\
  (Item r < 0 -> Z.rem (Item r) numServers <> 0 ->
   forall (pick : Z) (rest : list (Request * Z)) (sim : Sim),
     dispatch ModuloHash ((r, pick) :: rest) sim = Panic IndexOutOfRange).
Proof.
  unfold modulohash, numServers. split; [|split].
  - intros Hk. rewrite Z.rem_mod_nonneg by lia. split; [reflexivity|].
    apply Z.mod_pos_bound. lia.
  - split.
    + intros Hr. destruct (Z_lt_le_dec (Item r) 0) as [Hneg|Hpos]; [|left; exact Hpos].
      right. pose proof (Z.rem_bound_pos_neg (Item r) 100 ltac:(lia) ltac:(lia)). lia.
    + intros [Hk|Hz].
      * apply Z.rem_bound_pos; lia.
      * rewrite Hz. lia.
  - intros Hneg Hnz pick rest sim. cbn [dispatch ChooseServer bind].
    unfold modulohash, numServers, index.
    pose proof (Z.rem_bound_pos_neg (Item r) 100 ltac:(lia) ltac:(lia)) as Hb.
    destruct (Z.rem (Item r) 100 <? 0) eqn:H0; [reflexivity|].
    apply Z.ltb_ge in H0. unfold numServers in Hnz. lia.
Qed.

Lemma modulohash_index_witness :
  modulohash request5 = 5 /\
  dispatch ModuloHash
    [({| Item := -5; Sent := 1; Accepted := 0; Completed := 0; Cached := false |}, 0)]
    init
  = Panic IndexOutOfRange.
Proof.
  split.
  - exact (proj1 (proj1 (modulohash_index request5) ltac:(cbn; lia))).
  - apply (proj2 (proj2 (modulohash_index
             {| Item := -5; Sent := 1; Accepted := 0; Completed := 0; Cached := false |})));
      [reflexivity | discriminate].
Defined.

(** ** [Server.Tick] and the dispatch loop conserve requests *)

(** X19.  [Server.Tick] neither loses nor invents a request: on a server
    satisfying the invariant it returns, and the requests queued and in
    slots after the tick, plus those it returns as completed, are as many
    as those queued and in slots before; the queue never grows. *)
Theorem Server_Tick_conserves (t : Z) (s : Server) :
  wf_server s ->
  exists (s' : Server) (done : list Request),
    Server_Tick t s = Ok (s', done) /\
    Z.of_nat (length (Queue s')) + SlotsUsed s' + Z.of_nat (length done)
    = Z.of_nat (length (Queue s)) + SlotsUsed s /\
    (length (Queue s') <= length (Queue s))%nat /\
    0 <= SlotsUsed s' <= numSlots.
Proof.
  intros Hwf. destruct (Server_Tick_total t s Hwf) as (s' & done & H & Hwf' & Hin & Hle).
  exists s', done. split; [exact H|]. unfold inflight in Hin.
  split; [exact Hin|]. split; [exact Hle | exact (wf_server_bounds _ Hwf')].
Qed.

Lemma Server_Tick_conserves_witness :
  exists (s' : Server) (done : list Request),
    Server_Tick 101 (busy_server 6 [] [request5; request9; request2]) = Ok (s', done) /\
    Z.of_nat (length (Queue s')) + SlotsUsed s' + Z.of_nat (length done) = 3 + 6.
Proof.
  assert (Hwf : wf_server (busy_server 6 [] [request5; request9; request2]))
    by wf_by_computation.
  destruct (Server_Tick_conserves 101 _ Hwf) as (s' & done & H & Hc & _).
  exists s', done. split; [exact H | exact Hc].
Defined.

Lemma dispatch_appends (pol : Policy) (reqs : list (Request * Z)) (sim sim' : Sim) :
  dispatch pol reqs sim = Ok sim' ->
  forall (j : nat) (s' : Server),
    servers sim' !! j = Some s' ->
    exists (s : Server) (added : list Request),
      servers sim !! j = Some s /\
      Slots s' = Slots s /\ SlotsUsed s' = SlotsUsed s /\ Cache s' = Cache s /\
      Queue s' = Queue s ++ added /\
      Forall (fun r => In r (map fst reqs)) added.
Proof.
  revert sim. induction reqs as [|[r pick] rest IH]; intros sim H j s' Hj;
    cbn [dispatch] in H.
  - injection H as <-. exists s', []. rewrite app_nil_r.
    split; [exact Hj|]. repeat (split; [reflexivity|]). constructor.
  - destruct (ChooseServer pol sim r pick) as [[i rr]|p1] eqn:Hc; cbn [bind] in H;
      [|discriminate].
    destruct (index (servers sim) i) as [si|p2] eqn:Hi; cbn [bind] in H; [|discriminate].
    apply index_Ok in Hi as [_ Hi].
    destruct (IH _ H j s' Hj) as (sm & added & Hm & E1 & E2 & E3 & E4 & Hadd).
    cbn [servers] in Hm.
    assert (Hadd' : Forall (fun r0 => In r0 (map fst ((r, pick) :: rest))) added).
    { eapply Forall_impl; [exact Hadd|]. intros r0 Hr0. right. exact Hr0. }
    destruct (Nat.eq_dec j (Z.to_nat i)) as [->|Hne].
    + rewrite list_lookup_insert_eq in Hm by (eapply lookup_lt_Some; exact Hi).
      injection Hm as <-. unfold AddRequest in *.
      destruct (Z.of_nat (length (Queue si)) <? maxQueue); cbn [Slots SlotsUsed Cache Queue] in *.
      * exists si, (r :: added). split; [exact Hi|].
        split; [exact E1|]. split; [exact E2|]. split; [exact E3|].
        split; [rewrite E4, <- app_assoc; reflexivity|].
        constructor; [left; reflexivity | exact Hadd'].
      * exists si, added. split; [exact Hi|].
        repeat (split; [assumption|]). exact Hadd'.
    + rewrite list_lookup_insert_ne in Hm by congruence.
      exists sm, added. split; [exact Hm|].
      repeat (split; [assumption|]). exact Hadd'.
Qed.

(** X20.  The dispatch loop only offers requests to queues.  It adds the
    number of requests to [totalRequests] and leaves the other counters,
    the clock and every server's slots, [SlotsUsed] and cache as they
    were; a queue changes only by requests of this batch appended at its
    tail; and each request is accounted for, queued or dropped at a full
    queue. *)
Theorem dispatch_accounts (pol : Policy) (reqs : list (Request * Z)) (sim sim' : Sim) :
  dispatch pol reqs sim = Ok sim' ->
  stats sim' = {| totalRequests := totalRequests (stats sim) + Z.of_nat (length reqs);
                  acceptedRequests := acceptedRequests (stats sim);
                  totalCached := totalCached (stats sim);
                  totalQueued := totalQueued (stats sim);
                  totalTime := totalTime (stats sim) |} /\
  tm sim' = tm sim /\ released sim' = released sim /\
  length (servers sim') = length (servers sim) /\
  total_inflight (servers sim') + droppedCount sim'
  = total_inflight (servers sim) + droppedCount sim + Z.of_nat (length reqs) /\
  forall (j : nat) (s' : Server),
    servers sim' !! j = Some s' ->
    exists (s : Server) (added : list Request),
      servers sim !! j = Some s /\
      Slots s' = Slots s /\ SlotsUsed s' = SlotsUsed s /\ Cache s' = Cache s /\
      Queue s' = Queue s ++ added /\
      Forall (fun r => In r (map fst reqs)) added.
Proof.
  intros H. split; [exact (dispatch_stats _ _ _ _ H)|].
  destruct (dispatch_frame _ _ _ _ H) as (Htm & Hrel & Hbal & Htot & Hacc & Hlen).
  split; [exact Htm|]. split; [exact Hrel|]. split; [exact Hlen|].
  split; [unfold balance in Hbal; lia|].
  exact (dispatch_appends _ _ _ _ H).
Qed.

Lemma dispatch_accounts_witness :
  exists sim' : Sim,
    dispatch ModuloHash (replicate 70 (request5, 0)) init = Ok sim' /\
    totalRequests (stats sim') = 70 /\
    total_inflight (servers sim') + droppedCount sim' = 70.
Proof.
  eexists. split; [vm_compute; reflexivity|].
  match goal with
  | |- totalRequests (stats ?s') = _ /\ _ =>
      assert (H : dispatch ModuloHash (replicate 70 (request5, 0)) init = Ok s')
        by (vm_compute; reflexivity);
      destruct (dispatch_accounts _ _ _ _ H) as (Hst & _ & _ & _ & Hacc & _)
  end.
  split; [rewrite Hst; reflexivity | rewrite Hacc; reflexivity].
Defined.

(** ** The progress lines *)









